(** * SFZGen: a shallow embedding of [sfzGen.py]

    The development follows the script top to bottom: the Python
    primitives it relies on (exceptions, [str] methods, the [re]
    patterns of lines 34-39), the [Sample], [Global] and [Layer]
    classes, the filename parser ([dynToInt], [parseNote]) and the
    emitter ([printNote], [printDynamic], [velBorder], [printLayer]).

    Conventions.
    - Python [int] is [Z]; indices produced by [enumerate] and [len] are
      [nat].
    - Python [str] is [string]; the character classes, [str.lower] and
      [int] are those of ASCII, and statements that depend on them ask
      for ASCII strings ([Str.is_ascii]).
    - A finite Python [float] is the rational it denotes ([Q]); the
      rounded operations ([+], [*], [/], [**]) belong to [Extern].
    - [dict] is stdpp's [gmap]; [sorted] is [merge_sort].
    - Raising is explicit ([exc]); printing to [outfile] is a writer
      that keeps what was printed before an exception. *)

From Stdlib Require Import QArith Qround ZArith Lia String Ascii.
From stdpp Require Import gmap strings list sorting.

Set Warnings "-register-all".

Local Open Scope Z_scope.
Local Open Scope string_scope.

(** ** Exceptions *)

Inductive exn : Set :=
| TypeError | KeyError | AttributeError | IndexError
| ZeroDivisionError | ValueError | OverflowError | ReError.

Inductive exc (A : Type) : Type :=
| Ok (a : A)
| Raise (e : exn).
Arguments Ok {A} a.
Arguments Raise {A} e.

#[global] Instance exc_ret : MRet exc := fun _ a => Ok a.
#[global] Instance exc_bind : MBind exc := fun _ _ f m =>
  match m with Ok a => f a | Raise e => Raise e end.

Definition is_ok {A} (m : exc A) : bool :=
  match m with Ok _ => true | Raise _ => false end.

(** ** [str] primitives *)

Module Str.

Definition is_digit (c : ascii) : bool :=
  let n := nat_of_ascii c in (48 <=? n)%nat && (n <=? 57)%nat.

Definition digit_val (c : ascii) : Z := Z.of_nat (nat_of_ascii c) - 48.

(** [c.lower()] on an ASCII character. *)
Definition lower_ascii (c : ascii) : ascii :=
  let n := nat_of_ascii c in
  if (65 <=? n)%nat && (n <=? 90)%nat then ascii_of_nat (n + 32) else c.

Fixpoint lower (s : string) : string :=
  match s with
  | EmptyString => EmptyString
  | String c r => String (lower_ascii c) (lower r)
  end.

(** [s * n] *)
Fixpoint mul (s : string) (n : nat) : string :=
  match n with
  | O => EmptyString
  | S k => s ++ mul s k
  end.

(** [s] without the leading [p], when it starts with it. *)
Fixpoint after (p s : string) : option string :=
  match p with
  | EmptyString => Some s
  | String a p' =>
      match s with
      | String b s' => if Ascii.eqb a b then after p' s' else None
      | EmptyString => None
      end
  end.

Definition startswith (s p : string) : bool :=
  match after p s with Some _ => true | None => false end.

(** The longest prefix of [s] made of characters satisfying [p], and
    what follows it. *)
Fixpoint span (p : ascii -> bool) (s : string) : string * string :=
  match s with
  | EmptyString => (EmptyString, EmptyString)
  | String c r =>
      if p c then let '(a, b) := span p r in (String c a, b)
      else (EmptyString, s)
  end.

(** A non-empty run of decimal digits. *)
Fixpoint all_digits (s : string) : bool :=
  match s with
  | EmptyString => true
  | String c r => is_digit c && all_digits r
  end.

Definition digits (s : string) : bool :=
  match s with
  | EmptyString => false
  | String _ _ => all_digits s
  end.

(** Value of a run of decimal digits, most significant first. *)
Fixpoint digits_val (acc : Z) (s : string) : Z :=
  match s with
  | EmptyString => acc
  | String c r => digits_val (10 * acc + digit_val c) r
  end.

Definition is_space (c : ascii) : bool :=
  let n := nat_of_ascii c in
  (n =? 32)%nat || ((9 <=? n)%nat && (n <=? 13)%nat)
  || ((28 <=? n)%nat && (n <=? 31)%nat).

Fixpoint lstrip (s : string) : string :=
  match s with
  | String c r => if is_space c then lstrip r else s
  | EmptyString => EmptyString
  end.

(** The digits of [int(s)] after the first one: a single underscore may
    stand between two digits.  Gives the value and what follows the
    literal, or nothing when an underscore is misplaced. *)
Fixpoint literal (acc : Z) (s : string) : option (Z * string) :=
  match s with
  | String c r =>
      if is_digit c then literal (10 * acc + digit_val c) r
      else if Ascii.eqb c "_" then
        match r with
        | String d r' =>
            if is_digit d then literal (10 * acc + digit_val d) r' else None
        | EmptyString => None
        end
      else Some (acc, s)
  | EmptyString => Some (acc, EmptyString)
  end.

(** [int(s)] for a string of ASCII characters: surrounding white space
    is dropped, one sign is allowed, the rest must be a decimal literal
    followed by white space only. *)
Definition int (s : string) : exc Z :=
  let s := lstrip s in
  let '(neg, body) :=
    match s with
    | String c r =>
        if Ascii.eqb c "-" then (true, r)
        else if Ascii.eqb c "+" then (false, r)
        else (false, s)
    | EmptyString => (false, s)
    end in
  match body with
  | String c r =>
      if is_digit c then
        match literal (digit_val c) r with
        | Some (v, rest) =>
            match lstrip rest with
            | EmptyString => Ok (if neg : bool then - v else v)
            | String _ _ => Raise ValueError
            end
        | None => Raise ValueError
        end
      else Raise ValueError
  | EmptyString => Raise ValueError
  end.

(** Every character of [s] is an ASCII character.  On such a string the
    classes [\d] and [\s], [str.lower] and [int] are the ones written
    here; beyond ASCII Python knows more digits, spaces and letters. *)
Definition is_ascii (s : string) : bool :=
  forallb (fun c => (nat_of_ascii c <? 128)%nat) (list_ascii_of_string s).

End Str.

(** ** The compiled patterns (lines 34-39) *)

(** The text of an optional group, and the semitone of an accidental. *)
Definition group_text (g : option ascii) : string :=
  match g with
  | Some a => String a EmptyString
  | None => EmptyString
  end.

Definition semitone (g : option ascii) : Z :=
  match g with
  | Some a => if Ascii.eqb a "#" then 1 else -1
  | None => 0
  end.

Definition sign_text (neg : bool) : string := if neg then "-" else EmptyString.

Module Re.

(** [$]: the end of the string, or just before a newline that ends it. *)
Definition eos (s : string) : bool :=
  match s with
  | EmptyString => true
  | String c EmptyString => (nat_of_ascii c =? 10)%nat
  | _ => false
  end.

(** [\d+$] tried at the start of [s]; the digits it matched. *)
Definition digits_eos (s : string) : option string :=
  match Str.span Str.is_digit s with
  | (String c d, rest) => if eos rest then Some (String c d) else None
  | _ => None
  end.

(** [(-?\d+)$] tried at the start of [s]; the text of the group. *)
Definition int_eos (s : string) : option string :=
  match s with
  | String c r =>
      if Ascii.eqb c "-" then
        match digits_eos r with
        | Some d => Some (String "-"%char d)
        | None => digits_eos s
        end
      else digits_eos s
  | EmptyString => None
  end.

(** [x+$] for a single character [x], tried at the start of [s]. *)
Definition run_eos (x : ascii) (s : string) : bool :=
  match Str.span (Ascii.eqb x) s with
  | (String _ _, rest) => eos rest
  | _ => false
  end.

(** [lit$] for a literal [lit], tried at the start of [s]. *)
Definition lit_eos (lit s : string) : bool :=
  match Str.after lit s with
  | Some rest => eos rest
  | None => false
  end.

Definition is_note_letter (c : ascii) : bool :=
  let n := nat_of_ascii c in (97 <=? n)%nat && (n <=? 103)%nat.

Definition is_accidental (c : ascii) : bool :=
  Ascii.eqb c "#"%char || Ascii.eqb c "b"%char.

(** [R_note.match(f)], [^([abcdefg])([#b])?(-?\d+)$]: groups 1, 2, 3. *)
Definition R_note (f : string) : option (ascii * option ascii * string) :=
  match f with
  | String c r =>
      if is_note_letter c then
        let plain :=
          match int_eos r with
          | Some g => Some (c, None, g)
          | None => None
          end in
        match r with
        | String a r' =>
            if is_accidental a then
              match int_eos r' with
              | Some g => Some (c, Some a, g)
              | None => plain
              end
            else plain
        | EmptyString => plain
        end
      else None
  | EmptyString => None
  end.

Definition matched {A} (m : option A) : bool :=
  match m with Some _ => true | None => false end.

(** [l?\d+$] tried at the start of [s]. *)
Definition opt_l_digits_eos (s : string) : bool :=
  match Str.after "l" s with
  | Some r => matched (digits_eos r) || matched (digits_eos s)
  | None => matched (digits_eos s)
  end.

(** [R_dyn.match(f)], [p+$|mp$|mf$|f+$|vl?\d+$|l\d+$]. *)
Definition R_dyn (f : string) : bool :=
  run_eos "p"%char f
  || lit_eos "mp" f
  || lit_eos "mf" f
  || run_eos "f"%char f
  || match Str.after "v" f with
     | Some r => opt_l_digits_eos r
     | None => false
     end
  || match Str.after "l" f with
     | Some r => matched (digits_eos r)
     | None => false
     end.

(** [R_num.match(f)], [\d+$] anchored at the start. *)
Definition R_num_match (f : string) : option string := digits_eos f.

(** [R_num.search(f)]: the leftmost position where [\d+$] matches. *)
Fixpoint R_num_search (f : string) : option string :=
  match digits_eos f with
  | Some g => Some g
  | None =>
      match f with
      | String _ r => R_num_search r
      | EmptyString => None
      end
  end.

(** [R_rr.match(f)], [^rr(\d+)$]: group 1. *)
Definition R_rr (f : string) : option string :=
  match Str.after "rr" f with
  | Some r => digits_eos r
  | None => None
  end.

End Re.

(** ** [dynToInt] (lines 280-289) *)

Definition dynToInt (dyn : string) : exc Z :=
  if Str.startswith dyn "p" then Ok (- Z.of_nat (String.length dyn))
  else if String.eqb dyn "mp" then Ok 0
  else if String.eqb dyn "mf" then Ok 1
  else if Str.startswith dyn "f" then Ok (Z.of_nat (String.length dyn) + 1)
  else
    match Re.R_num_search dyn with
    | Some g => Str.int g
    | None => Raise AttributeError
    end.

(** ** Configuration values

    The YAML document is a mapping from strings to values; nested
    mappings keep their order. *)

Inductive yaml : Type :=
| YNull
| YBool (b : bool)
| YInt (z : Z)
| YFloat (q : Q)
| YStr (s : string)
| YList (l : list yaml)
| YDict (d : list (string * yaml)).

(** What the script takes from its libraries without the embedding
    looking inside: the [re] engine on patterns written by the user, and
    the arithmetic of [float].

    A piece of [pattern.split] is [None] where the pattern has a group
    that took no part in the match.  A finite [float] is the rational it
    denotes; a conversion, quotient or power that has no finite result
    raises, and a product that overflows is the infinity [None]. *)
Class Extern : Type := {
  pattern : Type;
  re_compile : yaml -> exc pattern;
  re_search : pattern -> string -> bool;
  re_sub : pattern -> yaml -> string -> exc string;
  re_split : pattern -> string -> list (option string);
  float_of_str : string -> exc Q;
  float_of_int : Z -> exc Q;
  fadd : Q -> Q -> Q;
  fmul : Q -> Q -> option Q;
  fdiv : Q -> Q -> exc Q;
  fpow : Q -> Q -> exc Q;
}.

(** [int(x)] on a float: towards zero, and [OverflowError] on an
    infinity. *)
Definition Qtrunc (q : Q) : Z := Z.quot (Qnum q) (Zpos (Qden q)).

Definition int_of_float (x : option Q) : exc Z :=
  match x with
  | Some q => Ok (Qtrunc q)
  | None => Raise OverflowError
  end.

Definition py_float `{Extern} (v : yaml) : exc Q :=
  match v with
  | YInt z => float_of_int z
  | YFloat q => Ok q
  | YBool b => Ok (if b then 1%Q else 0%Q)
  | YStr s => float_of_str s
  | _ => Raise TypeError
  end.

Definition py_int (v : yaml) : exc Z :=
  match v with
  | YInt z => Ok z
  | YFloat q => Ok (Qtrunc q)
  | YBool b => Ok (if b then 1 else 0)
  | YStr s => Str.int s
  | _ => Raise TypeError
  end.

Abbreviation config := (gmap string yaml).

(** [k in d] and [d[k]] *)
Definition has (k : string) (d : config) : bool :=
  Re.matched (d !! k).

Definition getitem (d : config) (k : string) : exc yaml :=
  match d !! k with Some v => Ok v | None => Raise KeyError end.

Definition dict_getitem (d : yaml) (k : string) : exc yaml :=
  match d with
  | YDict kv =>
      match list_find (fun p => bool_decide (p.1 = k)) (reverse kv) with
      | Some (_, (_, v)) => Ok v
      | None => Raise KeyError
      end
  | _ => Raise TypeError
  end.

(** [v.lower()] *)
Definition py_lower (v : yaml) : exc string :=
  match v with
  | YStr s => Ok (Str.lower s)
  | _ => Raise AttributeError
  end.

(** [for x in l: ...] threading a state through a raising body. *)
Fixpoint foldM {A S} (body : S -> A -> exc S) (l : list A) (s : S) : exc S :=
  match l with
  | [] => Ok s
  | x :: r => s' ← body s x; foldM body r s'
  end.

(** [{x.lower(): y.lower() for (x, y) in v.items()}] *)
Definition lower_map (v : yaml) : exc (gmap string string) :=
  match v with
  | YDict kv =>
      foldM (fun m '(x, y) => y' ← py_lower y; Ok (<[Str.lower x := y']> m))
            kv ∅
  | _ => Raise AttributeError
  end.

(** [for s in v]: the elements of a list, the keys of a dictionary,
    the characters of a string. *)
Definition py_iter (v : yaml) : exc (list yaml) :=
  match v with
  | YList l => Ok l
  | YDict kv => Ok (YStr <$> kv.*1)
  | YStr s => Ok ((fun c => YStr (String c EmptyString)) <$>
                    list_ascii_of_string s)
  | _ => Raise TypeError
  end.

(** [[(re.compile(s["from"]), s["to"]) for s in v]] *)
Definition compile_subs `{Extern} (v : yaml) : exc (list (pattern * yaml)) :=
  l ← py_iter v;
  foldM (fun acc s =>
           f ← dict_getitem s "from";
           rx ← re_compile f;
           t ← dict_getitem s "to";
           Ok (acc ++ [(rx, t)])%list) l [].

(** The command line (lines 226-239), as far as the modelled functions
    read it. *)
Record Args : Set := {
  noknobs : bool;
  noreleases : bool;
  force : bool;
  outdir : option string;
}.

(** ** [class Sample] (lines 41-49) *)

Module Sample.
Record t : Set := {
  name : string;
  offset : Z;
  vol : Q;
  pan : Q;
}.

Definition init (name : string) : t :=
  {| name := name; offset := 0; vol := 0; pan := 0 |}.
End Sample.

(** ** [class Global] (lines 93-125) *)

Module Global.
Section WithExtern.
Context `{Extern}.

Record t : Type := {
  name : yaml;
  volume : Q;
  attack : Q;
  release : Q;
  exponent : Q;
  min : option Z;
  max : option Z;
  map : gmap string string;
  sub : list (pattern * yaml);
  filter : option pattern;
  split : pattern;
  octaveOffset : Z;
  transpose : Z;
  indexOffset : Z;
  stride : Z;
  crossfade : bool;
  unpitched : bool;
  skipAnalysis : bool;
  invertDynamics : bool;
  knobs : bool;
  exact : bool;
}.

Definition init (args : Args) (layer : config) : exc t :=
  name ← (if has "name" layer then getitem layer "name"
          else Ok (YStr "Generated Instrument"));
  volume ← (if has "volume" layer then getitem layer "volume" ≫= py_float
            else Ok 0%Q);
  attack ← (if has "attack" layer then getitem layer "attack" ≫= py_float
            else Ok (4 # 1000)%Q);
  release ← (if has "release" layer then getitem layer "release" ≫= py_float
             else Ok (3 # 10)%Q);
  exponent ← (if has "exponent" layer
              then getitem layer "exponent" ≫= py_float
              else Ok (6 # 10)%Q);
  min ← (if has "min" layer then z ← getitem layer "min" ≫= py_int; Ok (Some z)
         else Ok None);
  max ← (if has "max" layer then z ← getitem layer "max" ≫= py_int; Ok (Some z)
         else Ok None);
  map ← (if has "map" layer then getitem layer "map" ≫= lower_map
         else Ok ∅);
  sub ← (if has "sub" layer then getitem layer "sub" ≫= compile_subs
         else Ok []);
  filter ← (if has "filter" layer
            then p ← getitem layer "filter" ≫= re_compile; Ok (Some p)
            else Ok None);
  split ← (if has "split" layer then getitem layer "split" ≫= re_compile
           else re_compile (YStr " "));
  octaveOffset ← (if has "octave" layer then getitem layer "octave" ≫= py_int
                  else Ok 0);
  transpose ← (if has "transpose" layer
               then getitem layer "transpose" ≫= py_int
               else Ok 0);
  indexOffset ← (if has "middleC" layer
                 then z ← getitem layer "middleC" ≫= py_int; Ok (z - 60)
                 else Ok 0);
  stride ← (if has "stride" layer then getitem layer "stride" ≫= py_int
            else Ok 1);
  Ok {| name := name; volume := volume; attack := attack;
        release := release; exponent := exponent; min := min; max := max;
        map := map; sub := sub; filter := filter; split := split;
        octaveOffset := octaveOffset; transpose := transpose;
        indexOffset := indexOffset; stride := stride;
        crossfade := has "crossfade" layer;
        unpitched := has "unpitched" layer;
        skipAnalysis := has "skipAnalysis" layer || has "force" layer;
        invertDynamics := has "invertDynamics" layer;
        knobs := if noknobs args then false else has "knobs" layer;
        exact := has "exact" layer |}.

End WithExtern.
Arguments t {_}.
End Global.

(** ** [class Layer] (lines 175-217) *)

(** [layer.dynamics]: dynamic level, then key index, then round robin. *)
Abbreviation robins := (gmap Z Sample.t).
Abbreviation notes := (gmap Z (gmap Z Sample.t)).
Abbreviation registry := (gmap Z (gmap Z (gmap Z Sample.t))).

(** [int(v * 127 / 100)]: the product is an integer for an integer and
    a float for a float, the quotient a float. *)
Definition knob_value `{Extern} (v : yaml) : exc Z :=
  match v with
  | YInt z => q ← fdiv (inject_Z (z * 127)) 100; Ok (Qtrunc q)
  | YBool b => q ← fdiv (inject_Z ((if b then 1 else 0) * 127)) 100;
               Ok (Qtrunc q)
  | YFloat x =>
      match fmul x 127 with
      | Some m => q ← fdiv m 100; Ok (Qtrunc q)
      | None => Raise OverflowError
      end
  | _ => Raise TypeError
  end.

Module Layer.
Section WithExtern.
Context `{Extern}.

Record t : Type := {
  name : string;
  attack : Q;
  release : Q;
  volume : Q;
  exponent : Q;
  min : option Z;
  max : option Z;
  map : gmap string string;
  sub : list (pattern * yaml);
  filter : option pattern;
  split : pattern;
  octaveOffset : Z;
  transpose : Z;
  srcDir : yaml;
  indexOffset : Z;
  stride : Z;
  crossfade : bool;
  invertDynamics : bool;
  unpitched : bool;
  isRelease : bool;
  alwaysRelease : bool;
  onekey : bool;
  exact : bool;
  knob : bool;
  knobVal : Z;
  skipAnalysis : bool;
  dynamics : registry;
}.

Definition init (args : Args) (globalLayer : Global.t)
    (name : string) (layer : config) : exc t :=
  attack ← (if has "attack" layer then getitem layer "attack" ≫= py_float
            else Ok 0%Q);
  release ← (if has "release" layer then getitem layer "release" ≫= py_float
             else Ok 0%Q);
  volume ← (if has "volume" layer then getitem layer "volume" ≫= py_float
            else Ok 0%Q);
  let volume := fadd volume (Global.volume globalLayer) in
  exponent ← (if has "exponent" layer
              then getitem layer "exponent" ≫= py_float
              else Ok (Global.exponent globalLayer));
  min ← (if has "min" layer then z ← getitem layer "min" ≫= py_int; Ok (Some z)
         else Ok (Global.min globalLayer));
  max ← (if has "max" layer then z ← getitem layer "max" ≫= py_int; Ok (Some z)
         else Ok (Global.max globalLayer));
  map ← (if has "map" layer then getitem layer "map" ≫= lower_map
         else Ok ∅);
  sub ← (if has "sub" layer then getitem layer "sub" ≫= compile_subs
         else Ok []);
  filter ← (if has "filter" layer
            then p ← getitem layer "filter" ≫= re_compile; Ok (Some p)
            else Ok None);
  split ← (if has "split" layer then getitem layer "split" ≫= re_compile
           else Ok (Global.split globalLayer));
  octaveOffset ← (if has "octave" layer then getitem layer "octave" ≫= py_int
                  else Ok 0);
  let octaveOffset := octaveOffset + Global.octaveOffset globalLayer in
  transpose ← (if has "transpose" layer
               then getitem layer "transpose" ≫= py_int
               else Ok 0);
  let transpose := transpose + Global.transpose globalLayer in
  srcDir ← getitem layer "source";
  indexOffset ← (if has "middleC" layer
                 then z ← getitem layer "middleC" ≫= py_int; Ok (z - 60)
                 else Ok (Global.indexOffset globalLayer));
  stride ← (if has "stride" layer then getitem layer "stride" ≫= py_int
            else Ok (Global.stride globalLayer));
  knobVal ← (if has "knobPercent" layer
             then getitem layer "knobPercent" ≫= knob_value
             else Ok 127);
  Ok {| name := name; attack := attack; release := release;
        volume := volume; exponent := exponent; min := min; max := max;
        map := map; sub := sub; filter := filter; split := split;
        octaveOffset := octaveOffset; transpose := transpose;
        srcDir := srcDir; indexOffset := indexOffset; stride := stride;
        crossfade := has "crossfade" layer || Global.crossfade globalLayer;
        invertDynamics :=
          has "invertDynamics" layer || Global.invertDynamics globalLayer;
        unpitched := has "unpitched" layer || Global.unpitched globalLayer;
        isRelease := has "isRelease" layer || String.eqb name "release";
        alwaysRelease := has "alwaysRelease" layer;
        onekey := has "onekey" layer;
        exact := has "exact" layer || Global.exact globalLayer;
        knob := if noknobs args then false else has "knob" layer;
        knobVal := knobVal;
        skipAnalysis := has "skipAnalysis" layer || has "force" layer;
        dynamics := ∅ |}.

(** Assignment to [layer.dynamics]; every other attribute is kept. *)
Definition with_dynamics (l : t) (d : registry) : t :=
  {| name := name l; attack := attack l; release := release l;
     volume := volume l; exponent := exponent l; min := min l;
     max := max l; map := map l; sub := sub l; filter := filter l;
     split := split l; octaveOffset := octaveOffset l;
     transpose := transpose l; srcDir := srcDir l;
     indexOffset := indexOffset l; stride := stride l;
     crossfade := crossfade l; invertDynamics := invertDynamics l;
     unpitched := unpitched l; isRelease := isRelease l;
     alwaysRelease := alwaysRelease l; onekey := onekey l;
     exact := exact l; knob := knob l; knobVal := knobVal l;
     skipAnalysis := skipAnalysis l; dynamics := d |}.

End WithExtern.
Arguments t {_}.
End Layer.

(** ** Filename parsing (lines 280-336) *)

(** [noteNames[c]] (line 34) *)
Definition noteNames (c : ascii) : exc Z :=
  if Ascii.eqb c "c" then Ok 0
  else if Ascii.eqb c "d" then Ok 2
  else if Ascii.eqb c "e" then Ok 4
  else if Ascii.eqb c "f" then Ok 5
  else if Ascii.eqb c "g" then Ok 7
  else if Ascii.eqb c "a" then Ok 9
  else if Ascii.eqb c "b" then Ok 11
  else Raise KeyError.

(** [d[dyn][index][rr] = s] on the nested [defaultdict]: a missing level
    is created on the way. *)
Definition store (d : registry) (dyn index rr : Z) (s : Sample.t) : registry :=
  let ns : notes := default ∅ (d !! dyn) in
  let rs : robins := default ∅ (ns !! index) in
  <[dyn := <[index := <[rr := s]> rs]> ns]> d.

(** What [parseNote] reports on the [info] stream. *)
Inductive info : Set :=
| Accepted (filename : string)
| UnknownNote (filename : string)
| NegativeIndex (filename : string).

(** The three locals of [parseNote]. *)
Record locals : Set := { index : Z; dyn : Z; rr : Z }.

Section Parsing.
Context `{Extern}.
Variable globalLayer : Global.t.

(** [f] after the two look-ups of lines 298-303. *)
Definition remap (layer : Layer.t) (fc : string) : string :=
  let f := Str.lower fc in
  let f := match Global.map globalLayer !! f with Some v => v | None => f end in
  match Layer.map layer !! f with Some v => v | None => f end.

(** One turn of the loop of lines 297-315. *)
Definition parseToken (layer : Layer.t) (st : locals) (fc : string)
  : exc locals :=
  let f := remap layer fc in
  match Re.R_note f with
  | Some (g1, g2, g3) =>
      i ← noteNames g1;
      let i :=
        match g2 with
        | Some a => i + (if Ascii.eqb a "#" then 1 else -1)
        | None => i
        end in
      o ← Str.int g3;
      Ok {| index := i + o * 12; dyn := dyn st; rr := rr st |}
  | None =>
      if Re.R_dyn f then
        d ← dynToInt f;
        Ok {| index := index st; dyn := d; rr := rr st |}
      else
        match Re.R_num_match f with
        | Some _ =>
            n ← Str.int f;
            Ok {| index := n * Layer.stride layer - Layer.indexOffset layer;
                  dyn := dyn st; rr := rr st |}
        | None =>
            match Re.R_rr f with
            | Some g1 =>
                r ← Str.int g1;
                Ok {| index := index st; dyn := dyn st; rr := r |}
            | None => Ok st
            end
        end
  end.

Definition parseTokens (layer : Layer.t) (fcs : list string) : exc locals :=
  foldM (parseToken layer) fcs {| index := -255; dyn := 0; rr := 0 |}.

(** The same turn on a piece of [split]: [fc.lower()] on [None]
    (line 298). *)
Definition parsePiece (layer : Layer.t) (st : locals) (fc : option string)
  : exc locals :=
  match fc with
  | Some s => parseToken layer st s
  | None => Raise AttributeError
  end.

Definition parsePieces (layer : Layer.t) (fcs : list (option string))
  : exc locals :=
  foldM (parsePiece layer) fcs {| index := -255; dyn := 0; rr := 0 |}.

Definition parseNote (layer : Layer.t) (filename parsed : string)
  : exc (Layer.t * info) :=
  let fcs := re_split (Layer.split layer) parsed in
  st ← parsePieces layer fcs;
  let d := Layer.dynamics layer in
  if (index st =? -255)%Z then
    if Layer.onekey layer then
      Ok (Layer.with_dynamics layer
            (store d (dyn st) 60 (rr st) (Sample.init filename)),
          Accepted filename)
    else if Layer.unpitched layer then
      let i := Z.of_nat (size (default (∅ : notes) (d !! dyn st))) in
      Ok (Layer.with_dynamics layer
            (store d (dyn st) i (rr st) (Sample.init filename)),
          Accepted filename)
    else Ok (layer, UnknownNote filename)
  else
    let i := index st + (Layer.octaveOffset layer * 12 + Layer.transpose layer) in
    if (i <? 0)%Z then Ok (layer, NegativeIndex filename)
    else
      Ok (Layer.with_dynamics layer
            (store d (dyn st) i (rr st) (Sample.init filename)),
          Accepted filename).

End Parsing.

(** ** Directory scan (lines 339-367) *)

Module Fmt.

(** What follows the extension when the pattern matches at the start
    of [s]: nothing, or the final newline. *)
Definition ext (lit s : string) : option string :=
  match Str.after lit s with
  | Some rest => if Re.eos rest then Some rest else None
  | None => None
  end.

Definition here (s : string) : option string :=
  match ext ".wav" s with
  | Some r => Some r
  | None =>
      match ext ".ogg" s with
      | Some r => Some r
      | None => ext ".flac" s
      end
  end.

(** [R_format.sub(empty, s)] when [R_format.search(s)] succeeds, with
    [R_format] the pattern [\.(?:wav|ogg|flac)$]. *)
Fixpoint strip (s : string) : option string :=
  match here s with
  | Some r => Some r
  | None =>
      match s with
      | String c r => String c <$> strip r
      | EmptyString => None
      end
  end.

End Fmt.

Section Scanning.
Context `{Extern}.
Variable globalLayer : Global.t.

(** [for rx, replacement in subs: parsed = rx.sub(replacement, parsed)] *)
Definition apply_subs (subs : list (pattern * yaml)) (parsed : string)
  : exc string :=
  foldM (fun p '(rx, replacement) => re_sub rx replacement p) subs parsed.

Definition passes (filter : option pattern) (parsed : string) : bool :=
  match filter with
  | Some rx => re_search rx parsed
  | None => true
  end.

(** The body of the loop over the directory listing. *)
Definition scanFile (layer : Layer.t) (filename : string) : exc Layer.t :=
  match Fmt.strip filename with
  | None => Ok layer
  | Some parsed =>
      if negb (passes (Global.filter globalLayer) parsed) then Ok layer
      else if negb (passes (Layer.filter layer) parsed) then Ok layer
      else
        parsed ← apply_subs (Global.sub globalLayer) parsed;
        parsed ← apply_subs (Layer.sub layer) parsed;
        r ← parseNote globalLayer layer filename parsed;
        Ok r.1
  end.

(** [files] is what [os.listdir(layer.srcDir)] returned, [None] when it
    raised. *)
Definition scanLayer (layer : Layer.t) (files : option (list string))
  : exc Layer.t :=
  match files with
  | None => Ok layer
  | Some files => foldM scanFile files layer
  end.

End Scanning.

(** ** Sound analysis (lines 371-425)

    [soundfile] and [numpy] are outside the embedding: [measure] says
    which of the attributes [offset] and [vol] the body of [analyzeFile]
    assigned for a file before it returned or raised, and to what. These
    are the only two assignments in it; the lines about [pan] are
    commented out in the script. *)

Class Sound : Type := {
  importable : bool;
  measure : yaml -> string -> option Z * option Q;
}.

Section Analysis.
Context `{Extern} `{Sound}.

Definition analyzeFile (layer : Layer.t) (sample : Sample.t) : Sample.t :=
  let '(o, v) := measure (Layer.srcDir layer) (Sample.name sample) in
  {| Sample.name := Sample.name sample;
     Sample.offset := default (Sample.offset sample) o;
     Sample.vol := default (Sample.vol sample) v;
     Sample.pan := Sample.pan sample |}.

Definition analyzeLayer (l : Layer.t) : Layer.t :=
  if Layer.isRelease l || Layer.skipAnalysis l then l
  else
    Layer.with_dynamics l
      (fmap (M := gmap Z) (fmap (M := gmap Z) (fmap (M := gmap Z) (analyzeFile l)))
            (Layer.dynamics l)).

Definition analyzeLayers (args : Args) (globalLayer : Global.t)
    (layers : list Layer.t) : list Layer.t :=
  if force args || Global.skipAnalysis globalLayer then layers
  else if negb importable then layers
  else analyzeLayer <$> layers.

End Analysis.

(** ** The output stream

    A line of the output is kept as the directive it spells, with the
    values that went into its format string. *)

Module Sfz.
Inductive text : Type :=
| region
| seq_length (n : nat)
| seq_position (n : nat)
| sample (srcDir name outputDir : string)
| key (index : Z)
| pitch_keycenter (index : Z)
| lokey (low : Z)
| hikey (high : Z)
| offset (n : Z)
| pan (n : Z)
| volume (v : Q)
| group
| ampeg_attack (a : Q)
| trigger_release_key
| trigger_release
| gain_oncc205
| pitch_keytrack
| lovel (low : Z)
| hivel (high : Z)
| xfin (cc : Z)
| blank
| number (v : Q)
| concat (a b : text).
End Sfz.

(** Printing keeps what was written before an exception. *)
Definition Emit (A : Type) : Type := list Sfz.text * exc A.

#[global] Instance Emit_ret : MRet Emit := fun _ a => ([], Ok a).
#[global] Instance Emit_bind : MBind Emit := fun _ _ f m =>
  match m with
  | (o, Ok a) => let '(o', r) := f a in (o ++ o', r)%list
  | (o, Raise e) => (o, Raise e)
  end.

Definition print (t : Sfz.text) : Emit unit := ([t], Ok tt).
Definition lift {A} (m : exc A) : Emit A := ([], m).
Definition written {A} (m : Emit A) : list Sfz.text := m.1.
Definition outcome {A} (m : Emit A) : exc A := m.2.

(** [for x in l: body(x)] *)
Fixpoint for_ {A} (l : list A) (body : A -> Emit unit) : Emit unit :=
  match l with
  | [] => mret tt
  | x :: r => body x ≫= fun _ => for_ r body
  end.

Definition enumerate {A} (l : list A) : list (nat * A) := imap pair l.

(** [sorted(d.items())] and [sorted(d)] on a dictionary with [int] keys. *)
Definition key_le {A} (a b : Z * A) : Prop := a.1 <= b.1.

#[global] Instance key_le_dec {A} : RelDecision (@key_le A).
Proof. intros a b. unfold key_le. apply _. Defined.

Definition sorted_items {A} (d : gmap Z A) : list (Z * A) :=
  merge_sort key_le (map_to_list d).

Definition sorted_keys {A} (d : gmap Z A) : list Z :=
  merge_sort Z.le ((map_to_list d).*1).

(** The operands of [+] at line 451. *)
Inductive pyval : Type :=
| VStr (s : Sfz.text)
| VFloat (q : Q).

Definition py_add `{Extern} (a b : pyval) : exc pyval :=
  match a, b with
  | VStr s, VStr t => Ok (VStr (Sfz.concat s t))
  | VFloat x, VFloat y => Ok (VFloat (fadd x y))
  | _, _ => Raise TypeError
  end.

Definition print_val (v : pyval) : Emit unit :=
  match v with
  | VStr s => print s
  | VFloat q => print (Sfz.number q)
  end.

(** [if x:] and [x == i] on a bound that may be [None]. *)
Definition truthy (x : option Z) : bool :=
  match x with
  | Some z => negb (z =? 0)%Z
  | None => false
  end.

Definition eq_int (x : option Z) (i : Z) : bool :=
  match x with
  | Some z => (z =? i)%Z
  | None => false
  end.

(** [l[i]] for [i >= 0] *)
Definition py_index (l : list Z) (i : nat) : exc Z :=
  match l !! i with
  | Some x => Ok x
  | None => Raise IndexError
  end.

(** [outputDir] (line 265) *)
Definition outputDir (args : Args) : string :=
  match outdir args with
  | Some d => if String.eqb d EmptyString then "." else d
  | None => "."
  end.

(** [[(keys[i] + keys[i+1])//2 for i in range(len(keys)-1)]] *)
Fixpoint borders (keys : list Z) : list Z :=
  match keys with
  | a :: (b :: _) as r => (a + b) / 2 :: borders r
  | _ => []
  end.

Section Emitter.
Context `{Extern}.
Variable args : Args.
Variable globalLayer : Global.t.

(** *** [printNote] (lines 431-453) *)
Definition printNote (layer : Layer.t) (note : Sample.t) (index : Z)
    (low high : option Z) (rr rrLen : nat) : Emit unit :=
  print Sfz.region;;
  (if (1 <? rrLen)%nat then
     print (Sfz.seq_length rrLen);;
     print (Sfz.seq_position (rr + 1))
   else mret tt);;
  match Layer.srcDir layer with
  | YStr d => print (Sfz.sample d (Sample.name note) (outputDir args))
  | _ => lift (Raise TypeError)
  end;;
  (if Layer.exact layer || (eq_int low index && eq_int high index) then
     print (Sfz.key index)
   else
     print (Sfz.pitch_keycenter index);;
     (if truthy low then print (Sfz.lokey (default 0 low)) else mret tt);;
     (if truthy high then print (Sfz.hikey (default 0 high)) else mret tt));;
  (if (0 <? Sample.offset note)%Z then print (Sfz.offset (Sample.offset note))
   else mret tt);;
  (if negb (Qeq_bool (Sample.pan note) 0) then
     print (Sfz.pan (Sample.offset note))
   else mret tt);;
  (if negb (Qeq_bool (Sample.vol note) 0) then
     v ← lift (py_add (VStr (Sfz.volume (Sample.vol note)))
                      (VFloat (Layer.volume layer)));
     print_val v
   else mret tt);;
  print Sfz.blank.

(** [layer.min and layer.min > index], [layer.max and layer.max < index] *)
Definition below_min (layer : Layer.t) (index : Z) : bool :=
  truthy (Layer.min layer) && (index <? default 0 (Layer.min layer))%Z.

Definition above_max (layer : Layer.t) (index : Z) : bool :=
  truthy (Layer.max layer) && (default 0 (Layer.max layer) <? index)%Z.

(** [low] and [high] of line 492 and 493 at position [i]. *)
Definition key_low (bs : list Z) (i : nat) : exc (option Z) :=
  match i with
  | O => Ok None
  | S j => b ← py_index bs j; Ok (Some (b + 1))
  end.

Definition key_high (bs : list Z) (keys : list Z) (i : nat)
  : exc (option Z) :=
  if (Z.of_nat i =? Z.of_nat (length keys) - 1)%Z then Ok None
  else b ← py_index bs i; Ok (Some b).

(** The inner loop, lines 494-499. *)
Definition printRobins (layer : Layer.t) (index : Z) (low high : option Z)
    (rrln : nat) (robins : robins) : Emit unit :=
  for_ (enumerate (sorted_items robins)) (fun '(j, (_, sample)) =>
    if below_min layer index then mret tt
    else if above_max layer index then mret tt
    else printNote layer sample index low high j rrln).

(** *** [printDynamic] (lines 457-499) *)
Definition printDynamic (layer : Layer.t) (notes : notes)
    (low high : option Z) (cc : Z) : Emit unit :=
  print Sfz.group;;
  (if negb (Qle_bool (Layer.attack layer) 0)
   then print (Sfz.ampeg_attack (Layer.attack layer)) else mret tt);;
  (if Layer.isRelease layer then
     (if Layer.alwaysRelease layer then print Sfz.trigger_release_key
      else print Sfz.trigger_release);;
     (if Global.knobs globalLayer && negb (noknobs args)
      then print Sfz.gain_oncc205 else mret tt)
   else mret tt);;
  (if Layer.unpitched layer then print Sfz.pitch_keytrack else mret tt);;
  (if truthy low then print (Sfz.lovel (default 0 low)) else mret tt);;
  (if truthy high then print (Sfz.hivel (default 0 high)) else mret tt);;
  (if negb (Qeq_bool (Layer.volume layer) 0)
   then print (Sfz.volume (Layer.volume layer)) else mret tt);;
  (if Layer.knob layer then print (Sfz.xfin cc) else mret tt);;
  let sortedRobins := sorted_items notes in
  let keys := sorted_keys notes in
  let bs := borders keys in
  print Sfz.blank;;
  for_ (enumerate sortedRobins) (fun '(i, (index, robins)) =>
    let rrln := size robins in
    low ← lift (key_low bs i);
    high ← lift (key_high bs keys i);
    printRobins layer index low high rrln robins).

(** *** [velBorder] and [printLayer] (lines 503-512) *)
Definition velBorder (layer : Layer.t) (i ln : nat) : exc Z :=
  if (ln =? 0)%nat then Raise ZeroDivisionError
  else
    x ← fdiv (inject_Z (Z.of_nat i)) (inject_Z (Z.of_nat ln));
    p ← fpow x (Layer.exponent layer);
    int_of_float (fmul p 128).

Definition vel_low (layer : Layer.t) (i dynLen : nat) : exc (option Z) :=
  match i with
  | O => Ok None
  | S _ => b ← velBorder layer i dynLen; Ok (Some b)
  end.

Definition vel_high (layer : Layer.t) (i dynLen : nat) : exc (option Z) :=
  if (Z.of_nat i =? Z.of_nat dynLen - 1)%Z then Ok None
  else b ← velBorder layer (i + 1) dynLen; Ok (Some (b - 1)).

Definition printLayer (layer : Layer.t) (li : nat) : Emit unit :=
  let dynLen := size (Layer.dynamics layer) in
  let sorted := sorted_items (Layer.dynamics layer) in
  let _sorted := if Layer.invertDynamics layer then reverse sorted else sorted in
  for_ (enumerate _sorted) (fun '(i, (_, notes)) =>
    low ← lift (vel_low layer i dynLen);
    high ← lift (vel_high layer i dynLen);
    printDynamic layer notes low high (301 + Z.of_nat li)).

End Emitter.

(** ** A stand-in for the libraries

    Enough of [re] and [float] to run the examples: a pattern without
    metacharacters, which matches its own text, float literals without a
    fraction, and exact arithmetic in place of the rounded one, with
    powers for whole exponents only. *)

Module Plain.

(** [skip] characters of a separator that began earlier are still to be
    passed over; [cur] is the piece being collected. *)
Fixpoint split_go (sep : string) (skip : nat) (cur s : string) : list string :=
  match s with
  | EmptyString => [cur]
  | String c r =>
      match skip with
      | S k => split_go sep k cur r
      | O =>
          if Str.startswith s sep then
            cur :: split_go sep (String.length sep - 1) EmptyString r
          else split_go sep O (cur ++ String c EmptyString) r
      end
  end.

(** The empty pattern matches between any two characters and at both
    ends. *)
Definition split (sep s : string) : list string :=
  if String.eqb sep EmptyString then
    (EmptyString ::
       ((fun c => String c EmptyString) <$> list_ascii_of_string s)
       ++ [EmptyString])%list
  else split_go sep O EmptyString s.

Fixpoint search (sep s : string) : bool :=
  Str.startswith s sep ||
  match s with
  | String _ r => search sep r
  | EmptyString => false
  end.

Fixpoint sub_go (sep repl : string) (skip : nat) (s : string) : string :=
  match s with
  | EmptyString => EmptyString
  | String c r =>
      match skip with
      | S k => sub_go sep repl k r
      | O =>
          if Str.startswith s sep then
            repl ++ sub_go sep repl (String.length sep - 1) r
          else String c (sub_go sep repl O r)
      end
  end.

Fixpoint sub_empty (repl s : string) : string :=
  repl ++ match s with
          | EmptyString => EmptyString
          | String c r => String c (sub_empty repl r)
          end.

(** [x ** e] for a whole exponent. *)
Definition pow (x e : Q) : exc Q :=
  if (Qden e =? 1)%positive then
    if Qeq_bool x 0 && (Qnum e <? 0)%Z then Raise ZeroDivisionError
    else Ok (Qpower x (Qnum e))
  else Raise ValueError.

#[export] Instance extern : Extern := {|
  pattern := string;
  re_compile := fun v =>
    match v with YStr s => Ok s | _ => Raise TypeError end;
  re_search := search;
  re_sub := fun rx repl s =>
    match repl with
    | YStr t => Ok (if String.eqb rx EmptyString then sub_empty t s
                    else sub_go rx t O s)
    | _ => Raise TypeError
    end;
  re_split := fun rx s => Some <$> split rx s;
  float_of_str := fun s => z ← Str.int s; Ok (inject_Z z);
  float_of_int := fun z => Ok (inject_Z z);
  fadd := Qplus;
  fmul := fun x y => Some (x * y)%Q;
  fdiv := fun x y =>
    if Qeq_bool y 0 then Raise ZeroDivisionError else Ok (x / y)%Q;
  fpow := pow;
|}.

(** No sound library: the analysis is skipped. *)
Definition silent : Sound := {|
  importable := false;
  measure := fun _ _ => (None, None);
|}.

(** A sound library that reports the same loudness for every file. *)
Definition loud (v : Q) : Sound := {|
  importable := true;
  measure := fun _ _ => (None, Some v);
|}.

Definition args : Args :=
  {| noknobs := false; noreleases := false; force := false; outdir := None |}.

(** [Global({})]: every default. *)
Definition globalLayer : Global.t :=
  {| Global.name := YStr "Generated Instrument";
     Global.volume := 0; Global.attack := 4 # 1000; Global.release := 3 # 10;
     Global.exponent := 6 # 10; Global.min := None; Global.max := None;
     Global.map := ∅; Global.sub := []; Global.filter := None;
     Global.split := " "; Global.octaveOffset := 0; Global.transpose := 0;
     Global.indexOffset := 0; Global.stride := 1; Global.crossfade := false;
     Global.unpitched := false; Global.skipAnalysis := false;
     Global.invertDynamics := false; Global.knobs := false;
     Global.exact := false |}.

(** [Layer("sustain", {"source": "samples", ...})] with the keys [max]
    and [exponent] as given, and the registry [d] filled in. *)
Definition layer (max : option Z) (exponent : Q) (d : registry) : Layer.t :=
  {| Layer.name := "sustain"; Layer.attack := 0; Layer.release := 0;
     Layer.volume := 0 + 0; Layer.exponent := exponent; Layer.min := None;
     Layer.max := max; Layer.map := ∅; Layer.sub := [];
     Layer.filter := None; Layer.split := " "; Layer.octaveOffset := 0;
     Layer.transpose := 0; Layer.srcDir := YStr "samples";
     Layer.indexOffset := 0; Layer.stride := 1; Layer.crossfade := false;
     Layer.invertDynamics := false; Layer.unpitched := false;
     Layer.isRelease := false; Layer.alwaysRelease := false;
     Layer.onekey := false; Layer.exact := false; Layer.knob := false;
     Layer.knobVal := 127; Layer.skipAnalysis := false; Layer.dynamics := d |}.

Definition sustain : Layer.t := layer None (6 # 10) ∅.

(** The registry after a scan of a directory that lists [files]. *)
Definition scanned (files : list string) : registry :=
  match scanLayer globalLayer sustain (Some files) with
  | Ok l => Layer.dynamics l
  | Raise _ => ∅
  end.

End Plain.

(** ** Vocabulary of the statements *)

Definition newline : string := String (ascii_of_nat 10) EmptyString.

(** What follows a digit run does not start with a digit. *)
Definition no_digit_ahead (s : string) : Prop :=
  match s with
  | EmptyString => True
  | String c _ => Str.is_digit c = false
  end.

(** [R_num.search] finds a digit run whenever one ends the string. *)
Definition found (s : string) : Prop :=
  exists g, Re.R_num_search s = Some g /\ Str.digits g = true.

(** The value of the text of group 3 of [R_note]. *)
Definition signed_val (neg : bool) (d : string) : Z :=
  if neg then - Str.digits_val 0 d else Str.digits_val 0 d.

(** The two tokens on which [dynToInt] raises after [R_dyn] matched. *)
Definition raising_mark (f : string) : Prop :=
  f = "mp" +:+ newline \/ f = "mf" +:+ newline.

(** A piece of the split filename on which the loop of [parseNote]
    raises, and a piece whose characters are ASCII before and after the
    look-ups. *)
Definition raising_piece `{Extern} (globalLayer : Global.t)
    (layer : Layer.t) (u : option string) : Prop :=
  match u with
  | Some s => raising_mark (remap globalLayer layer s)
  | None => True
  end.

Definition ascii_piece `{Extern} (globalLayer : Global.t)
    (layer : Layer.t) (u : option string) : Prop :=
  match u with
  | Some s => Str.is_ascii s = true
              /\ Str.is_ascii (remap globalLayer layer s) = true
  | None => True
  end.

(** [d[dyn][index][rr]] without creating anything. *)
Definition entry (d : registry) (dyn index rr : Z) : option Sample.t :=
  ns ← d !! dyn; rs ← (ns : notes) !! index; (rs : robins) !! rr.

(** The note pattern in the words of the specification: a letter among
    a-g, optionally [#] or [b], optionally a signed integer. *)
Definition spec_signed_int (s : string) : bool :=
  match s with
  | String c r =>
      if Ascii.eqb c "-" || Ascii.eqb c "+" then Str.digits r
      else Str.digits s
  | EmptyString => false
  end.

Definition spec_optional_octave (s : string) : bool :=
  match s with
  | EmptyString => true
  | String _ _ => spec_signed_int s
  end.

Definition spec_note_pattern (t : string) : bool :=
  match t with
  | String c r =>
      Re.is_note_letter c &&
      (spec_optional_octave r ||
       match r with
       | String a r' => Re.is_accidental a && spec_optional_octave r'
       | EmptyString => false
       end)
  | EmptyString => false
  end.

(** Every line written by [m], raised or not, satisfies [P]. *)
Definition lines {A} (P : Sfz.text -> Prop) (m : Emit A) : Prop :=
  Forall P (written m).

Definition is_pan (t : Sfz.text) : Prop :=
  match t with Sfz.pan _ => True | _ => False end.

Definition is_lokey (t : Sfz.text) : Prop :=
  match t with Sfz.lokey _ => True | _ => False end.

Definition is_lovel (t : Sfz.text) : Prop :=
  match t with Sfz.lovel _ => True | _ => False end.

Definition is_volume (t : Sfz.text) : Prop :=
  match t with Sfz.volume _ => True | _ => False end.

(** Every sample of the registry has pan 0. *)
Definition pan_zero (d : registry) : Prop :=
  forall dyn index rr s, entry d dyn index rr = Some s -> Sample.pan s = 0%Q.

(** The states a layer goes through in a run (lines 269-274 and
    569-572): construction, directory scans, sound analysis. *)
Inductive reachable `{Extern} `{Sound} (globalLayer : Global.t)
  : Layer.t -> Prop :=
| reach_init args name cfg layer :
    Layer.init args globalLayer name cfg = Ok layer ->
    reachable globalLayer layer
| reach_scan layer files layer' :
    reachable globalLayer layer ->
    scanLayer globalLayer layer files = Ok layer' ->
    reachable globalLayer layer'
| reach_analyze layer :
    reachable globalLayer layer ->
    reachable globalLayer (analyzeLayer layer).

(** The first character of a token that [R_dyn] can match, and of what
    follows the letter of a token that [R_note] can match. *)
Definition dyn_head (c : ascii) : bool :=
  Ascii.eqb c "p" || Ascii.eqb c "m" || Ascii.eqb c "f"
  || Ascii.eqb c "v" || Ascii.eqb c "l".

Definition note_tail_head (c : ascii) : bool :=
  Re.is_accidental c || Ascii.eqb c "-" || Str.is_digit c.

(** How many of the four patterns of [parseNote] match a token. *)
Definition token_classes (f : string) : nat :=
  (if Re.matched (Re.R_note f) then 1 else 0)
  + (if Re.R_dyn f then 1 else 0)
  + (if Re.matched (Re.R_num_match f) then 1 else 0)
  + (if Re.matched (Re.R_rr f) then 1 else 0).

(** What the registry of a layer looks like at any point of a run: no
    level and no key is left without a sample, and no key index or
    round-robin index is negative. *)
Definition registry_wf (d : registry) : Prop :=
  forall dyn (ns : notes),
    d !! dyn = Some ns ->
    ns <> ∅
    /\ forall index (rs : robins),
         ns !! index = Some rs ->
         0 <= index /\ rs <> ∅
         /\ forall rr s, rs !! rr = Some s -> 0 <= rr.

(** An unpitched layer for the examples:
    [Layer("drums", {"source": "samples", "unpitched": ...})] with the
    registry [d] filled in. *)
Module Kit.
Import Plain.

Definition drums (d : registry) : Layer.t :=
  {| Layer.name := "drums"; Layer.attack := 0; Layer.release := 0;
     Layer.volume := 0 + 0; Layer.exponent := 6 # 10; Layer.min := None;
     Layer.max := None; Layer.map := ∅; Layer.sub := [];
     Layer.filter := None; Layer.split := " "; Layer.octaveOffset := 0;
     Layer.transpose := 0; Layer.srcDir := YStr "samples";
     Layer.indexOffset := 0; Layer.stride := 1; Layer.crossfade := false;
     Layer.invertDynamics := false; Layer.unpitched := true;
     Layer.isRelease := false; Layer.alwaysRelease := false;
     Layer.onekey := false; Layer.exact := false; Layer.knob := false;
     Layer.knobVal := 127; Layer.skipAnalysis := false; Layer.dynamics := d |}.

End Kit.

(** The three extensions of [R_format]. *)
Definition audio_ext (ext : string) : Prop :=
  ext = ".wav" \/ ext = ".ogg" \/ ext = ".flac".

(** * Properties *)

(** ** Dynamics marks *)

Lemma mul_char_S (c : ascii) (n : nat) :
  Str.mul (String c EmptyString) (S n)
  = String c (Str.mul (String c EmptyString) n).
Proof. reflexivity. Qed.

Lemma length_mul_char (c : ascii) (n : nat) :
  String.length (Str.mul (String c EmptyString) n) = n.
Proof.
  induction n as [|n IH]; [reflexivity|].
  rewrite mul_char_S. cbn [String.length]. now rewrite IH.
Qed.

(** C8: for every n >= 1, [dynToInt] of a run of n 'p' is -n and of a
    run of n 'f' is n+1; [dynToInt("mp")] is 0 and [dynToInt("mf")]
    is 1. *)
Theorem dynToInt_marks (n : nat) :
  (1 <= n)%nat ->
  dynToInt (Str.mul "p" n) = Ok (- Z.of_nat n)
  /\ dynToInt (Str.mul "f" n) = Ok (Z.of_nat n + 1)
  /\ dynToInt "mp" = Ok 0
  /\ dynToInt "mf" = Ok 1.
Proof.
  intros Hn. destruct n as [|k]; [lia|].
  assert (Hlen : forall c, String.length (String c (Str.mul (String c EmptyString) k)) = S k)
    by (intros c; cbn [String.length]; now rewrite length_mul_char).
  repeat split; try reflexivity.
  - unfold dynToInt. rewrite mul_char_S, Hlen. reflexivity.
  - unfold dynToInt. rewrite mul_char_S, Hlen. reflexivity.
Qed.

Lemma dynToInt_marks_witness :
  dynToInt "ppp" = Ok (-3) /\ dynToInt "fff" = Ok 4
  /\ dynToInt "mp" = Ok 0 /\ dynToInt "mf" = Ok 1.
Proof. apply (dynToInt_marks 3). lia. Defined.

(** ** Facts about the patterns *)

(** Case analysis on a character, for facts that are finite checks. *)
Ltac by_char c :=
  destruct c as [[] [] [] [] [] [] [] []]; try discriminate; try reflexivity.

Section PatternFacts.

Lemma append_cons c s t : String c s +:+ t = String c (s +:+ t).
Proof. reflexivity. Qed.

Lemma append_empty_r s : s +:+ EmptyString = s.
Proof.
  induction s as [|c s IH]; [reflexivity|].
  now rewrite append_cons, IH.
Qed.

Lemma digit_not_space c : Str.is_digit c = true -> Str.is_space c = false.
Proof. by_char c. Qed.

Lemma digit_not_minus c : Str.is_digit c = true -> Ascii.eqb c "-" = false.
Proof. by_char c. Qed.

Lemma digit_not_plus c : Str.is_digit c = true -> Ascii.eqb c "+" = false.
Proof. by_char c. Qed.

Lemma digit_not_accidental c :
  Str.is_digit c = true -> Re.is_accidental c = false.
Proof. by_char c. Qed.

Lemma accidental_not_digit c :
  Re.is_accidental c = true -> Str.is_digit c = false.
Proof. by_char c. Qed.

Lemma accidental_not_minus c :
  Re.is_accidental c = true -> Ascii.eqb c "-" = false.
Proof. by_char c. Qed.

Lemma eos_cases rest : Re.eos rest = true -> rest = EmptyString \/ rest = newline.
Proof.
  destruct rest as [|c [|d r]]; simpl; try discriminate; auto.
  intros Hc. right. unfold newline. f_equal.
  by_char c.
Qed.

Lemma eos_no_digit rest : Re.eos rest = true -> no_digit_ahead rest.
Proof. intros [->| ->]%eos_cases; simpl; auto. Qed.

Lemma span_digits_spec s d rest :
  Str.span Str.is_digit s = (d, rest) ->
  Str.all_digits d = true /\ s = d +:+ rest /\ no_digit_ahead rest.
Proof.
  revert d rest. induction s as [|c s IH]; intros d rest; simpl.
  - intros [= <- <-]. now simpl.
  - destruct (Str.is_digit c) eqn:Hc.
    + destruct (Str.span Str.is_digit s) as [a b] eqn:Hs.
      intros [= <- <-]. destruct (IH a b eq_refl) as (Ha & -> & Hb).
      simpl. rewrite Hc, Ha. auto.
    + intros [= <- <-]. simpl. auto.
Qed.

Lemma span_digits_app d rest :
  Str.all_digits d = true -> no_digit_ahead rest ->
  Str.span Str.is_digit (d +:+ rest) = (d, rest).
Proof.
  induction d as [|c d IH]; intros Hd Hrest.
  - destruct rest as [|c r]; [reflexivity|]. simpl in *. now rewrite Hrest.
  - simpl in Hd. apply andb_true_iff in Hd as [Hc Hd].
    rewrite append_cons. simpl. rewrite Hc, IH by assumption. reflexivity.
Qed.

Lemma digits_all d : Str.digits d = true -> Str.all_digits d = true.
Proof. now destruct d. Qed.

Lemma digits_eos_spec s g :
  Re.digits_eos s = Some g ->
  Str.digits g = true /\ exists rest, s = g +:+ rest /\ Re.eos rest = true.
Proof.
  unfold Re.digits_eos.
  destruct (Str.span Str.is_digit s) as [d rest] eqn:Hs.
  destruct d as [|c d]; [discriminate|].
  destruct (Re.eos rest) eqn:He; [|discriminate].
  intros [= <-]. apply span_digits_spec in Hs as (Hd & -> & _).
  split; [exact Hd | eauto].
Qed.

Lemma digits_eos_intro g rest :
  Str.digits g = true -> Re.eos rest = true ->
  Re.digits_eos (g +:+ rest) = Some g.
Proof.
  intros Hg He. unfold Re.digits_eos.
  rewrite span_digits_app by auto using digits_all, eos_no_digit.
  destruct g; [discriminate|]. now rewrite He.
Qed.

Lemma digits_head g :
  Str.digits g = true -> exists c r, g = String c r /\ Str.is_digit c = true.
Proof.
  destruct g as [|c r]; [discriminate|]. simpl.
  intros [Hc _]%andb_true_iff. eauto.
Qed.

Lemma lstrip_eos rest : Re.eos rest = true -> Str.lstrip rest = EmptyString.
Proof. intros [->| ->]%eos_cases; reflexivity. Qed.

Lemma lstrip_nonspace c r :
  Str.is_space c = false -> Str.lstrip (String c r) = String c r.
Proof. intros Hc. simpl. now rewrite Hc. Qed.

Lemma literal_digits g : forall acc rest,
  Str.all_digits g = true -> Re.eos rest = true ->
  Str.literal acc (g +:+ rest) = Some (Str.digits_val acc g, rest).
Proof.
  induction g as [|c g IH]; intros acc rest Hg He.
  - change (EmptyString +:+ rest) with rest.
    apply eos_cases in He as [->| ->]; reflexivity.
  - rewrite append_cons. cbn [Str.all_digits] in Hg.
    apply andb_true_iff in Hg as [Hc Hg].
    cbn [Str.literal Str.digits_val]. rewrite Hc. now apply IH.
Qed.

(** [int] on what the patterns hand to it. *)
Lemma int_digits g rest :
  Str.digits g = true -> Re.eos rest = true ->
  Str.int (g +:+ rest) = Ok (Str.digits_val 0 g).
Proof.
  intros Hg He. destruct (digits_head g Hg) as (c & r & -> & Hc).
  apply digits_all in Hg. cbn [Str.all_digits] in Hg.
  apply andb_true_iff in Hg as [_ Hr].
  unfold Str.int. rewrite append_cons.
  rewrite lstrip_nonspace by now apply digit_not_space.
  cbv zeta. rewrite (digit_not_minus c Hc), (digit_not_plus c Hc).
  cbv beta iota. rewrite Hc, (literal_digits r _ rest Hr He).
  now rewrite (lstrip_eos rest He).
Qed.

Lemma int_signed neg d :
  Str.digits d = true ->
  Str.int (sign_text neg +:+ d)
  = Ok (if neg then - Str.digits_val 0 d else Str.digits_val 0 d).
Proof.
  intros Hd. destruct neg.
  - change (sign_text true +:+ d) with (String "-" d).
    destruct (digits_head d Hd) as (c & r & -> & Hc).
    apply digits_all in Hd. cbn [Str.all_digits] in Hd.
    apply andb_true_iff in Hd as [_ Hr].
    unfold Str.int. rewrite lstrip_nonspace by reflexivity.
    cbv zeta. rewrite Ascii.eqb_refl. cbv beta iota. rewrite Hc.
    rewrite <- (append_empty_r r) at 1.
    now rewrite (literal_digits r _ EmptyString Hr eq_refl).
  - change (sign_text false +:+ d) with d.
    rewrite <- (append_empty_r d) at 1. now apply int_digits.
Qed.

Lemma int_eos_spec s g :
  Re.int_eos s = Some g ->
  exists neg d, g = sign_text neg +:+ d /\ Str.digits d = true.
Proof.
  destruct s as [|c r]; [discriminate|]. unfold Re.int_eos.
  assert (Hplain : Re.digits_eos (String c r) = Some g ->
          exists neg d, g = sign_text neg +:+ d /\ Str.digits d = true).
  { intros [Hg _]%digits_eos_spec. now exists false, g. }
  destruct (Ascii.eqb c "-"); [|exact Hplain].
  destruct (Re.digits_eos r) as [d|] eqn:Hr; [|exact Hplain].
  intros [= <-]. apply digits_eos_spec in Hr as [Hd _]. now exists true, d.
Qed.

Lemma int_eos_intro neg d :
  Str.digits d = true -> Re.int_eos (sign_text neg +:+ d) = Some (sign_text neg +:+ d).
Proof.
  intros Hd. destruct neg.
  - change (sign_text true +:+ d) with (String "-" d).
    unfold Re.int_eos. rewrite Ascii.eqb_refl.
    rewrite <- (append_empty_r d) at 1.
    now rewrite digits_eos_intro.
  - change (sign_text false +:+ d) with d.
    destruct (digits_head d Hd) as (c & r & -> & Hc).
    unfold Re.int_eos. rewrite (digit_not_minus c Hc).
    rewrite <- (append_empty_r (String c r)) at 1.
    now rewrite digits_eos_intro.
Qed.

Lemma noteNames_total c :
  Re.is_note_letter c = true -> exists p, noteNames c = Ok p.
Proof. by_char c; intros _; eexists; reflexivity. Qed.

End PatternFacts.

Section NoteFacts.

Lemma R_note_intro c acc neg d :
  Re.is_note_letter c = true ->
  (acc = None \/ exists a, acc = Some a /\ Re.is_accidental a = true) ->
  Str.digits d = true ->
  Re.R_note (String c (group_text acc +:+ (sign_text neg +:+ d)))
  = Some (c, acc, sign_text neg +:+ d).
Proof.
  intros Hc Hacc Hd. unfold Re.R_note. rewrite Hc.
  destruct Hacc as [->|(a & -> & Ha)].
  - change (group_text None +:+ ?x) with x.
    rewrite (int_eos_intro neg d Hd).
    destruct neg.
    + reflexivity.
    + destruct (digits_head d Hd) as (c' & r & -> & Hc').
      change (sign_text false +:+ ?x) with x. cbv iota.
      now rewrite (digit_not_accidental c' Hc').
  - change (group_text (Some a) +:+ ?x) with (String a x). cbv iota.
    now rewrite Ha, (int_eos_intro neg d Hd).
Qed.

Lemma R_note_spec f c acc g :
  Re.R_note f = Some (c, acc, g) ->
  Re.is_note_letter c = true
  /\ (acc = None \/ exists a, acc = Some a /\ Re.is_accidental a = true)
  /\ exists neg d, g = sign_text neg +:+ d /\ Str.digits d = true.
Proof.
  destruct f as [|c0 r]; [discriminate|]. unfold Re.R_note.
  destruct (Re.is_note_letter c0) eqn:Hc; [|discriminate].
  assert (Hplain :
    match Re.int_eos r with Some g0 => Some (c0, None, g0) | None => None end
    = Some (c, acc, g) ->
    Re.is_note_letter c = true
    /\ (acc = None \/ exists a, acc = Some a /\ Re.is_accidental a = true)
    /\ exists neg d, g = sign_text neg +:+ d /\ Str.digits d = true).
  { destruct (Re.int_eos r) as [g0|] eqn:Hr; [|discriminate].
    intros [= <- <- <-]. eauto using int_eos_spec. }
  destruct r as [|a r']; [exact Hplain|].
  destruct (Re.is_accidental a) eqn:Ha; [|exact Hplain].
  destruct (Re.int_eos r') as [g0|] eqn:Hr'; [|exact Hplain].
  intros [= <- <- <-]. split; [exact Hc|]. split; [eauto|].
  eauto using int_eos_spec.
Qed.

(** A note letter with at most an accidental after it is not a note. *)
Lemma R_note_bare c acc :
  (acc = None \/ exists a, acc = Some a /\ Re.is_accidental a = true) ->
  Re.R_note (String c (group_text acc)) = None.
Proof.
  intros Hacc. unfold Re.R_note.
  destruct (Re.is_note_letter c); [|reflexivity].
  destruct Hacc as [->|(a & -> & Ha)]; [reflexivity|].
  simpl. rewrite Ha. unfold Re.int_eos.
  rewrite (accidental_not_minus a Ha). unfold Re.digits_eos. simpl.
  now rewrite (accidental_not_digit a Ha).
Qed.

Lemma note_letter_not_digit c :
  Re.is_note_letter c = true -> Str.is_digit c = false.
Proof. by_char c. Qed.

Lemma R_num_match_letter c r :
  Str.is_digit c = false -> Re.R_num_match (String c r) = None.
Proof.
  intros Hc. unfold Re.R_num_match, Re.digits_eos. simpl. now rewrite Hc.
Qed.

Lemma after_spec p s r : Str.after p s = Some r -> s = p +:+ r.
Proof.
  revert s. induction p as [|a p IH]; intros s; simpl.
  - now intros [= ->].
  - destruct s as [|b s]; [discriminate|].
    destruct (Ascii.eqb_spec a b) as [->|]; [|discriminate].
    intros Hs. rewrite append_cons. f_equal. now apply IH.
Qed.

Lemma run_eos_startswith x f :
  Re.run_eos x f = true -> Str.startswith f (String x EmptyString) = true.
Proof.
  unfold Re.run_eos, Str.startswith. destruct f as [|c r]; [discriminate|].
  simpl. destruct (Ascii.eqb x c); [reflexivity|discriminate].
Qed.

Lemma found_here s g : Re.digits_eos s = Some g -> found s.
Proof.
  intros Hs. exists g. split; [|now apply digits_eos_spec in Hs].
  destruct s; cbn [Re.R_num_search]; now rewrite Hs.
Qed.

Lemma found_cons c s : found s -> found (String c s).
Proof.
  intros (g & Hs & Hg). unfold found. cbn [Re.R_num_search].
  destruct (Re.digits_eos (String c s)) as [g'|] eqn:Hc; [|eauto].
  exists g'. split; [reflexivity|]. now apply digits_eos_spec in Hc.
Qed.

Lemma matched_Some {A} (m : option A) :
  Re.matched m = true -> exists a, m = Some a.
Proof. destruct m; [eauto|discriminate]. Qed.

Lemma R_dyn_cases f :
  Re.R_dyn f = true ->
  Str.startswith f "p" = true \/ Str.startswith f "f" = true
  \/ f = "mp" \/ f = "mf" \/ f = "mp" +:+ newline \/ f = "mf" +:+ newline
  \/ found f.
Proof.
  unfold Re.R_dyn. rewrite !orb_true_iff.
  intros [[[[[Hp|Hmp]|Hmf]|Hf]|Hv]|Hl].
  - left. now apply run_eos_startswith.
  - unfold Re.lit_eos in Hmp. destruct (Str.after "mp" f) as [r|] eqn:Hr; [|discriminate].
    apply after_spec in Hr as ->.
    apply eos_cases in Hmp as [->| ->]; auto 10.
  - unfold Re.lit_eos in Hmf. destruct (Str.after "mf" f) as [r|] eqn:Hr; [|discriminate].
    apply after_spec in Hr as ->.
    apply eos_cases in Hmf as [->| ->]; auto 10.
  - right. left. now apply run_eos_startswith.
  - do 6 right.
    destruct (Str.after "v" f) as [r|] eqn:Hr; [|discriminate].
    apply after_spec in Hr as ->. apply found_cons.
    unfold Re.opt_l_digits_eos in Hv.
    destruct (Str.after "l" r) as [r'|] eqn:Hr'.
    + apply after_spec in Hr' as ->. apply orb_true_iff in Hv as [Hv|Hv];
        apply matched_Some in Hv as [g Hg].
      * apply found_cons. eauto using found_here.
      * eauto using found_here.
    + apply matched_Some in Hv as [g Hg]. eauto using found_here.
  - do 6 right.
    destruct (Str.after "l" f) as [r|] eqn:Hr; [|discriminate].
    apply after_spec in Hr as ->. apply found_cons.
    apply matched_Some in Hl as [g Hg]. eauto using found_here.
Qed.

Lemma int_digits_only g :
  Str.digits g = true -> Str.int g = Ok (Str.digits_val 0 g).
Proof.
  intros Hg. rewrite <- (append_empty_r g) at 1. now apply int_digits.
Qed.

(** [dynToInt] raises on a token that [R_dyn] accepted only for the two
    marks followed by a newline. *)
Lemma dynToInt_ok f :
  Re.R_dyn f = true ->
  f <> "mp" +:+ newline -> f <> "mf" +:+ newline ->
  exists z, dynToInt f = Ok z.
Proof.
  intros Hf Hmp Hmf. unfold dynToInt.
  destruct (Str.startswith f "p") eqn:Hsp; [eauto|].
  destruct (String.eqb_spec f "mp") as [|Hn1]; [eauto|].
  destruct (String.eqb_spec f "mf") as [|Hn2]; [eauto|].
  destruct (Str.startswith f "f") eqn:Hsf; [eauto|].
  destruct (R_dyn_cases f Hf) as [H|[H|[H|[H|[H|[H|H]]]]]];
    try congruence.
  destruct H as (g & -> & Hg). rewrite (int_digits_only g Hg). eauto.
Qed.

Lemma dynToInt_newline :
  dynToInt ("mp" +:+ newline) = Raise AttributeError
  /\ dynToInt ("mf" +:+ newline) = Raise AttributeError.
Proof. split; reflexivity. Qed.

End NoteFacts.

(** ** The token loop *)

Section ParseFacts.
Context `{Extern}.
Variable globalLayer : Global.t.

Lemma foldM_app {A S} (body : S -> A -> exc S) (l1 l2 : list A) (s : S) :
  foldM body (l1 ++ l2)%list s = foldM body l1 s ≫= foldM body l2.
Proof.
  revert s. induction l1 as [|x l1 IH]; intros s; [reflexivity|].
  simpl. destruct (body s x) as [s'|e]; [apply IH | reflexivity].
Qed.

Lemma entry_store (d : registry) (dyn index rr : Z) (s : Sample.t) :
  entry (store d dyn index rr s) dyn index rr = Some s.
Proof.
  unfold entry, store. rewrite lookup_insert_eq. simpl.
  rewrite lookup_insert_eq. simpl. apply lookup_insert_eq.
Qed.

Lemma parseToken_note layer st fc c acc g :
  Re.R_note (remap globalLayer layer fc) = Some (c, acc, g) ->
  exists p neg d,
    noteNames c = Ok p /\ g = sign_text neg +:+ d /\ Str.digits d = true
    /\ parseToken globalLayer layer st fc
       = Ok {| index := p + semitone acc + 12 * signed_val neg d;
               dyn := dyn st; rr := rr st |}.
Proof.
  intros Hm. destruct (R_note_spec _ _ _ _ Hm) as (Hc & Hacc & neg & d & -> & Hd).
  destruct (noteNames_total c Hc) as [p Hp].
  exists p, neg, d. repeat split; try assumption.
  unfold parseToken. rewrite Hm, Hp. simpl.
  rewrite (int_signed neg d Hd). simpl. f_equal.
  unfold semitone, signed_val. f_equal.
  destruct acc; lia.
Qed.

Lemma parseToken_other layer st fc st' :
  Re.R_note (remap globalLayer layer fc) = None ->
  Re.R_num_match (remap globalLayer layer fc) = None ->
  parseToken globalLayer layer st fc = Ok st' ->
  index st' = index st.
Proof.
  intros Hnote Hnum. unfold parseToken. rewrite Hnote, Hnum.
  destruct (Re.R_dyn _).
  - destruct (dynToInt _); simpl; [|discriminate]. now intros [= <-].
  - destruct (Re.R_rr _) as [g1|].
    + destruct (Str.int g1); simpl; [|discriminate]. now intros [= <-].
    + now intros [= <-].
Qed.

Lemma parseToken_ok layer st fc :
  ~ raising_mark (remap globalLayer layer fc) ->
  exists st', parseToken globalLayer layer st fc = Ok st'.
Proof.
  intros Hmark. unfold parseToken.
  destruct (Re.R_note _) as [[[c acc] g]|] eqn:Hnote.
  - destruct (parseToken_note layer st fc c acc g Hnote)
      as (p & neg & d & _ & _ & _ & Hp).
    unfold parseToken in Hp. rewrite Hnote in Hp. eauto.
  - destruct (Re.R_dyn _) eqn:Hdyn.
    + destruct (dynToInt_ok _ Hdyn) as [z ->]; simpl; eauto;
        intros Hf; apply Hmark; [left|right]; exact Hf.
    + destruct (Re.R_num_match _) as [g|] eqn:Hnum.
      * apply digits_eos_spec in Hnum as (Hg & rest & Hf & He).
        rewrite Hf, (int_digits g rest Hg He). simpl. eauto.
      * destruct (Re.R_rr _) as [g1|] eqn:Hrr; [|eauto].
        unfold Re.R_rr in Hrr. destruct (Str.after "rr" _); [|discriminate].
        apply digits_eos_spec in Hrr as [Hg _].
        rewrite (int_digits_only g1 Hg). simpl. eauto.
Qed.

Lemma parseTokens_ok layer fcs st :
  Forall (fun u => ~ raising_mark (remap globalLayer layer u)) fcs ->
  exists st', foldM (parseToken globalLayer layer) fcs st = Ok st'.
Proof.
  intros Hfcs. revert st. induction Hfcs as [|u fcs Hu _ IH]; intros st.
  - simpl. eauto.
  - simpl. destruct (parseToken_ok layer st u Hu) as [st1 ->]. apply IH.
Qed.

Lemma foldM_pieces layer fcs st :
  foldM (parsePiece globalLayer layer) (Some <$> fcs) st
  = foldM (parseToken globalLayer layer) fcs st.
Proof.
  revert st. induction fcs as [|u fcs IH]; intros st; [reflexivity|].
  simpl. destruct (parseToken globalLayer layer st u); [apply IH|reflexivity].
Qed.

Lemma parsePieces_strings layer fcs :
  parsePieces globalLayer layer (Some <$> fcs)
  = parseTokens globalLayer layer fcs.
Proof. apply foldM_pieces. Qed.

Lemma parseTokens_keep layer fcs st :
  Forall (fun u => Re.R_note (remap globalLayer layer u) = None
                   /\ Re.R_num_match (remap globalLayer layer u) = None) fcs ->
  Forall (fun u => ~ raising_mark (remap globalLayer layer u)) fcs ->
  exists st', foldM (parseToken globalLayer layer) fcs st = Ok st'
              /\ index st' = index st.
Proof.
  intros Hkeep. revert st.
  induction Hkeep as [|u fcs [Hn Hm] _ IH]; intros st Hok.
  - simpl. eauto.
  - apply Forall_cons in Hok as [Hu Hok].
    destruct (parseToken_ok layer st u Hu) as [st1 Hst1].
    destruct (IH st1 Hok) as (st' & Hst' & Hi).
    exists st'. simpl. rewrite Hst1. simpl. split; [exact Hst'|].
    rewrite Hi. eauto using parseToken_other.
Qed.

End ParseFacts.

(** ** Note tokens *)

Lemma plain_globalLayer : Global.init Plain.args ∅ = Ok Plain.globalLayer.
Proof. reflexivity. Qed.

Lemma plain_sustain :
  Layer.init Plain.args Plain.globalLayer "sustain"
    {[ "source" := YStr "samples" ]} = Ok Plain.sustain.
Proof. reflexivity. Qed.

Lemma plain_layer_max_0 :
  Layer.init Plain.args Plain.globalLayer "sustain"
    (<[ "max" := YInt 0 ]> {[ "source" := YStr "samples" ]})
  = Ok (Plain.layer (Some 0) (6 # 10) ∅).
Proof. reflexivity. Qed.

Lemma plain_layer_exponent (e : Z) :
  Layer.init Plain.args Plain.globalLayer "sustain"
    (<[ "exponent" := YInt e ]> {[ "source" := YStr "samples" ]})
  = Ok (Plain.layer None (inject_Z e) ∅).
Proof. reflexivity. Qed.

Section NoteTokens.
Context `{Extern}.
Variable globalLayer : Global.t.

(** C3, as amended: a letter among a-g, optionally followed by [#] or
    [b], and then an octave written as an optional minus sign and at
    least one digit, is a note token and sets the key index to the pitch
    class plus the semitone plus twelve times the octave; the same
    letter and accidental with no octave after them is not a note token
    and leaves the key index as it was. *)
Theorem note_token_needs_octave layer st fc c acc :
  Re.is_note_letter c = true ->
  acc = None \/ acc = Some "#"%char \/ acc = Some "b"%char ->
  (forall neg d,
      Str.digits d = true ->
      remap globalLayer layer fc
      = String c (group_text acc +:+ (sign_text neg +:+ d)) ->
      Re.R_note (remap globalLayer layer fc)
      = Some (c, acc, sign_text neg +:+ d)
      /\ exists p,
          noteNames c = Ok p
          /\ parseToken globalLayer layer st fc
             = Ok {| index := p + semitone acc + 12 * signed_val neg d;
                     dyn := dyn st; rr := rr st |})
  /\ (remap globalLayer layer fc = String c (group_text acc) ->
      Re.R_note (remap globalLayer layer fc) = None
      /\ exists st',
          parseToken globalLayer layer st fc = Ok st'
          /\ index st' = index st).
Proof.
  intros Hc Hacc.
  assert (Hacc' : acc = None \/ exists a, acc = Some a /\ Re.is_accidental a = true).
  { destruct Hacc as [->|[->| ->]]; [now left|right; eauto..]. }
  split.
  - intros neg d Hd Hf.
    assert (Hm := R_note_intro c acc neg d Hc Hacc' Hd). rewrite <- Hf in Hm.
    split; [exact Hm|].
    destruct (parseToken_note globalLayer layer st fc _ _ _ Hm)
      as (p & neg' & d' & Hp & Hg & Hd' & Hok).
    exists p. split; [exact Hp|]. rewrite Hok.
    assert (Hi := int_signed neg d Hd). rewrite Hg in Hi.
    rewrite (int_signed neg' d' Hd') in Hi. injection Hi as Hi.
    unfold signed_val. now rewrite Hi.
  - intros Hf.
    assert (Hn := R_note_bare c acc Hacc'). rewrite <- Hf in Hn.
    split; [exact Hn|].
    assert (Hmark : ~ raising_mark (remap globalLayer layer fc)).
    { rewrite Hf. intros [Hm|Hm]; injection Hm as -> _; discriminate. }
    destruct (parseToken_ok globalLayer layer st fc Hmark) as [st' Hst'].
    exists st'. split; [exact Hst'|].
    apply (parseToken_other globalLayer layer st fc st' Hn); [|exact Hst'].
    rewrite Hf. apply R_num_match_letter. now apply note_letter_not_digit.
Qed.

End NoteTokens.

Lemma note_token_needs_octave_witness :
  (Re.R_note "c#3" = Some ("c"%char, Some "#"%char, "3")
   /\ exists p,
       noteNames "c" = Ok p
       /\ parseToken Plain.globalLayer Plain.sustain
            {| index := -255; dyn := 0; rr := 0 |} "C#3"
          = Ok {| index := p + 1 + 12 * 3; dyn := 0; rr := 0 |})
  /\ (Re.R_note "c#" = None
      /\ exists st',
          parseToken Plain.globalLayer Plain.sustain
            {| index := -255; dyn := 0; rr := 0 |} "C#" = Ok st'
          /\ index st' = -255).
Proof.
  destruct (note_token_needs_octave Plain.globalLayer Plain.sustain
              {| index := -255; dyn := 0; rr := 0 |} "C#3" "c" (Some "#"%char)
              eq_refl (or_intror (or_introl eq_refl))) as [Hnote _].
  destruct (note_token_needs_octave Plain.globalLayer Plain.sustain
              {| index := -255; dyn := 0; rr := 0 |} "C#" "c" (Some "#"%char)
              eq_refl (or_intror (or_introl eq_refl))) as [_ Hbare].
  split.
  - exact (Hnote false "3" eq_refl eq_refl).
  - exact (Hbare eq_refl).
Defined.

(** C3, as stated, fails: the tokens [c] and [c#] have the shape the
    specification describes, [R_note] rejects both, and a file named
    after one of them gets no key index. *)
Lemma bare_letter_is_no_note :
  spec_note_pattern "c" = true /\ spec_note_pattern "c#" = true
  /\ Re.R_note "c" = None /\ Re.R_note "c#" = None
  /\ parseTokens Plain.globalLayer Plain.sustain ["c"]
     = Ok {| index := -255; dyn := 0; rr := 0 |}
  /\ parseNote Plain.globalLayer Plain.sustain "c.wav" "c"
     = Ok (Plain.sustain, UnknownNote "c.wav").
Proof. repeat split; reflexivity. Qed.

Section LastToken.
Context `{Extern}.
Variable globalLayer : Global.t.

(** C2, as amended: let the split of the filename give only strings,
    each of ASCII characters before and after the lookup in the [map]
    tables, and none of them [mp] or [mf] followed by a newline after
    that lookup.  Then a token that matches the note pattern yields the
    pitch class of its letter, plus or minus one for the accidental,
    plus twelve times its octave; this is the key index of the filename
    before the octave and transpose offsets whenever no later token of
    the filename is a note or a plain number, whatever the tokens before
    it and the dynamics, round-robin and unrecognised tokens after it;
    and unless it is -255 or the offsets make it negative, the sample is
    stored under it plus the offsets. *)
Theorem last_note_token_governs layer filename parsed pre fc post c acc g :
  re_split (Layer.split layer) parsed = Some <$> (pre ++ fc :: post)%list ->
  Forall (fun u => Str.is_ascii u = true
                   /\ Str.is_ascii (remap globalLayer layer u) = true)
         (pre ++ fc :: post)%list ->
  Re.R_note (remap globalLayer layer fc) = Some (c, acc, g) ->
  Forall (fun u => Re.R_note (remap globalLayer layer u) = None
                   /\ Re.R_num_match (remap globalLayer layer u) = None) post ->
  Forall (fun u => ~ raising_mark (remap globalLayer layer u))
         (pre ++ post)%list ->
  exists p o st,
    noteNames c = Ok p /\ Str.int g = Ok o
    /\ parseTokens globalLayer layer (pre ++ fc :: post)%list = Ok st
    /\ index st = p + semitone acc + 12 * o
    /\ let key := index st
                  + (Layer.octaveOffset layer * 12 + Layer.transpose layer) in
       (index st <> -255 -> 0 <= key ->
        exists layer',
          parseNote globalLayer layer filename parsed
          = Ok (layer', Accepted filename)
          /\ entry (Layer.dynamics layer') (dyn st) key (rr st)
             = Some (Sample.init filename)).
Proof.
  intros Hsplit _ Hnote Hpost Hok.
  apply Forall_app in Hok as [Hpre Hpost'].
  destruct (parseTokens_ok globalLayer layer pre
              {| index := -255; dyn := 0; rr := 0 |} Hpre) as [st1 Hst1].
  destruct (parseToken_note globalLayer layer st1 fc c acc g Hnote)
    as (p & neg & d & Hp & Hg & Hd & Hfc).
  destruct (parseTokens_keep globalLayer layer post
              {| index := p + semitone acc + 12 * signed_val neg d;
                 dyn := dyn st1; rr := rr st1 |} Hpost Hpost')
    as (st & Hst & Hi).
  assert (Htokens : parseTokens globalLayer layer (pre ++ fc :: post)%list = Ok st).
  { unfold parseTokens. rewrite foldM_app, Hst1. simpl. rewrite Hfc. exact Hst. }
  exists p, (signed_val neg d), st.
  split; [exact Hp|]. split; [subst g; apply (int_signed neg d Hd)|].
  split; [exact Htokens|]. split; [rewrite Hi; reflexivity|].
  intros key Hsentinel Hkey. unfold parseNote.
  rewrite Hsplit, parsePieces_strings, Htokens. simpl.
  destruct (Z.eqb_spec (index st) (-255)) as [|_]; [contradiction|].
  fold key. destruct (Z.ltb_spec key 0) as [|_]; [lia|].
  eexists. split; [reflexivity|]. apply entry_store.
Qed.

End LastToken.

Lemma last_note_token_governs_witness :
  exists p o st,
    noteNames "c" = Ok p /\ Str.int "3" = Ok o
    /\ parseTokens Plain.globalLayer Plain.sustain ["5"; "c3"; "mf"; "rr2"]
       = Ok st
    /\ index st = p + semitone None + 12 * o
    /\ let key := index st + (0 * 12 + 0) in
       (index st <> -255 -> 0 <= key ->
        exists layer',
          parseNote Plain.globalLayer Plain.sustain
            "5 c3 mf rr2.wav" "5 c3 mf rr2"
          = Ok (layer', Accepted "5 c3 mf rr2.wav")
          /\ entry (Layer.dynamics layer') (dyn st) key (rr st)
             = Some (Sample.init "5 c3 mf rr2.wav")).
Proof.
  apply (last_note_token_governs Plain.globalLayer Plain.sustain
           "5 c3 mf rr2.wav" "5 c3 mf rr2" ["5"] "c3" ["mf"; "rr2"]
           "c"%char None "3").
  - reflexivity.
  - repeat constructor.
  - reflexivity.
  - repeat constructor.
  - repeat constructor; intros [Hm|Hm]; discriminate Hm.
Defined.

(** C2, as stated, fails: [c3] is a note token worth 36, yet the key
    stored for [c3 5] is 5, and swapping the two tokens changes the
    stored key to 36; and with the token [mp] and a newline after it no
    key is stored at all, the parsing raises. *)
Lemma later_number_overrides_note :
  Re.R_note "c3" = Some ("c"%char, None, "3")
  /\ parseNote Plain.globalLayer Plain.sustain
       ("c3 mp" +:+ newline +:+ ".wav") ("c3 mp" +:+ newline)
     = Raise AttributeError
  /\ (exists layer',
        parseNote Plain.globalLayer Plain.sustain "c3 5.wav" "c3 5"
        = Ok (layer', Accepted "c3 5.wav")
        /\ entry (Layer.dynamics layer') 0 36 0 = None
        /\ entry (Layer.dynamics layer') 0 5 0 = Some (Sample.init "c3 5.wav"))
  /\ (exists layer',
        parseNote Plain.globalLayer Plain.sustain "5 c3.wav" "5 c3"
        = Ok (layer', Accepted "5 c3.wav")
        /\ entry (Layer.dynamics layer') 0 36 0 = Some (Sample.init "5 c3.wav")
        /\ entry (Layer.dynamics layer') 0 5 0 = None).
Proof.
  split; [reflexivity|]. split; [reflexivity|]. split.
  - exists (Layer.with_dynamics Plain.sustain
              (store ∅ 0 5 0 (Sample.init "c3 5.wav"))).
    split; [reflexivity|]. split; vm_compute; reflexivity.
  - exists (Layer.with_dynamics Plain.sustain
              (store ∅ 0 36 0 (Sample.init "5 c3.wav"))).
    split; [reflexivity|]. split; vm_compute; reflexivity.
Qed.

(** ** Layer construction *)

(** Walks through the assignments of a constructor that returned. *)
Ltac step_init H :=
  repeat match type of H with
         | match ?m with Ok _ => _ | Raise _ => _ end = Ok _ =>
             let E := fresh "E" in
             destruct m eqn:E; [|discriminate H]
         end.

(** C5, as amended: a layer whose configuration has no [attack] key
    (respectively no [release] key) is constructed with attack
    (respectively release) 0, whatever the Global layer holds. *)
Theorem layer_attack_release_default `{Extern} args globalLayer name cfg l :
  Layer.init args globalLayer name cfg = Ok l ->
  (has "attack" cfg = false -> Layer.attack l = 0%Q)
  /\ (has "release" cfg = false -> Layer.release l = 0%Q).
Proof.
  intros Hinit. unfold Layer.init, mbind, exc_bind in Hinit.
  step_init Hinit. injection Hinit as <-. simpl. split; intros Hk.
  - rewrite Hk in E. now injection E.
  - rewrite Hk in E0. now injection E0.
Qed.

Lemma layer_attack_release_default_witness :
  Layer.attack Plain.sustain = 0%Q /\ Layer.release Plain.sustain = 0%Q.
Proof.
  destruct (layer_attack_release_default Plain.args Plain.globalLayer
              "sustain" {[ "source" := YStr "samples" ]} Plain.sustain)
    as [Ha Hr].
  - reflexivity.
  - split; [apply Ha | apply Hr]; reflexivity.
Defined.

(** C5, as stated, fails: with every default, the Global layer has
    attack 0.004 and release 0.3, and a layer that names neither key is
    constructed with 0 for both. *)
Lemma layer_attack_not_inherited :
  exists (g : @Global.t Plain.extern) l,
    Global.init Plain.args (∅ : config) = Ok g
    /\ Layer.init Plain.args g "sustain"
         ({[ "source" := YStr "samples" ]} : config) = Ok l
    /\ has "attack" ({[ "source" := YStr "samples" ]} : config) = false
    /\ has "release" ({[ "source" := YStr "samples" ]} : config) = false
    /\ ~ (Layer.attack l == Global.attack g)%Q
    /\ ~ (Layer.release l == Global.release g)%Q.
Proof.
  exists Plain.globalLayer, Plain.sustain.
  split; [reflexivity|]. split; [reflexivity|].
  split; [reflexivity|]. split; [reflexivity|].
  split; intros Heq; discriminate Heq.
Qed.

(** ** The output stream *)

Section EmitFacts.

Lemma lines_ret {A} P (a : A) : lines P (mret a : Emit A).
Proof. constructor. Qed.

Lemma lines_print (P : Sfz.text -> Prop) t : P t -> lines P (print t).
Proof. intros Ht. now repeat constructor. Qed.

Lemma lines_lift {A} P (m : exc A) : lines P (lift m).
Proof. constructor. Qed.

Lemma lines_bind {A B} P (m : Emit A) (f : A -> Emit B) :
  lines P m -> (forall a, outcome m = Ok a -> lines P (f a)) ->
  lines P (m ≫= f).
Proof.
  unfold lines, written, outcome. destruct m as [o [a|e]]; simpl; intros Ho Hf.
  - specialize (Hf a eq_refl). destruct (f a) as [o' r]. simpl in *.
    now apply Forall_app.
  - exact Ho.
Qed.

Lemma lines_for {A} P (l : list A) (body : A -> Emit unit) :
  (forall x, x ∈ l -> lines P (body x)) -> lines P (for_ l body).
Proof.
  induction l as [|x l IH]; intros Hbody; simpl.
  - apply lines_ret.
  - apply lines_bind.
    + apply Hbody. left.
    + intros _ _. apply IH. intros y Hy. apply Hbody. now right.
Qed.

Lemma for_skip {A} (l : list A) (body : A -> Emit unit) :
  (forall x, x ∈ l -> body x = mret tt) -> for_ l body = mret tt.
Proof.
  induction l as [|x l IH]; intros Hbody; [reflexivity|].
  simpl. rewrite (Hbody x) by left. rewrite IH; [reflexivity|].
  intros y Hy. apply Hbody. now right.
Qed.

Lemma elem_of_enumerate {A} (l : list A) i x :
  (i, x) ∈ enumerate l -> x ∈ l.
Proof.
  unfold enumerate. intros (j & y & [= -> ->] & Hj)%elem_of_lookup_imap.
  eapply list_elem_of_lookup_2, Hj.
Qed.

Lemma elem_of_sorted_items {A} (d : gmap Z A) k v :
  (k, v) ∈ sorted_items d -> d !! k = Some v.
Proof.
  unfold sorted_items. rewrite merge_sort_Permutation.
  apply elem_of_map_to_list.
Qed.

End EmitFacts.

(** Solves [lines P m] along the shape of [m]. *)
Ltac lines_tac :=
  repeat first
    [ apply lines_ret
    | apply lines_lift
    | apply lines_print; (exact I || (simpl; tauto) || (intros []))
    | apply lines_bind; [|intros ? _]
    | match goal with
      | |- lines _ (if ?b then _ else _) => destruct b
      | |- lines _ (match ?x with _ => _ end) => destruct x
      end ].

(** ** Region blocks *)

Section RegionFacts.
Context `{Extern}.
Variable args : Args.

(** A sample with a non-zero volume never gets past line 451: the
    block is cut before any volume directive and [TypeError] is raised
    (the other way to raise, a source directory that is not a string,
    is a [TypeError] too). *)
Lemma printNote_raises_on_volume layer note index low high rr rrLen :
  Qeq_bool (Sample.vol note) 0 = false ->
  outcome (printNote args layer note index low high rr rrLen)
  = Raise TypeError
  /\ lines (fun t => ~ is_volume t)
           (printNote args layer note index low high rr rrLen).
Proof.
  intros Hvol. split.
  - unfold printNote, outcome. rewrite Hvol.
    destruct (1 <? rrLen)%nat, (Layer.srcDir layer),
      (Layer.exact layer || (eq_int low index && eq_int high index)),
      (truthy low), (truthy high), (0 <? Sample.offset note)%Z,
      (negb (Qeq_bool (Sample.pan note) 0)); reflexivity.
  - unfold printNote. rewrite Hvol. simpl negb. cbv iota.
    lines_tac.
Qed.

End RegionFacts.

(** C1: the claim holds at no sample with a non-zero volume. For the
    file [c3.wav] measured at -3 dB, [printNote] writes the region
    header, the sample path and the key, then raises [TypeError] at the
    [+] of line 451: no volume directive, no closing blank line. *)
Theorem printNote_volume_raises_at :
  let note := @analyzeFile Plain.extern (Plain.loud (-3)) Plain.sustain
                (Sample.init "c3.wav") in
  Sample.vol note = (-3)%Q
  /\ printNote Plain.args Plain.sustain note 36 None None 0 1
     = ([Sfz.region; Sfz.sample "samples" "c3.wav" "."; Sfz.pitch_keycenter 36],
        Raise TypeError).
Proof. split; reflexivity. Qed.

(** ** Lines of a group *)

Section GroupLines.
Context `{Extern}.
Variable args : Args.
Variable globalLayer : Global.t.

Lemma printNote_lines_not_lovel layer note index low high rr rrLen :
  lines (fun t => ~ is_lovel t) (printNote args layer note index low high rr rrLen).
Proof. unfold printNote, print_val. lines_tac. Qed.

Lemma printRobins_lines P layer index low high rrln robins :
  (forall note j, lines P (printNote args layer note index low high j rrln)) ->
  lines P (printRobins args layer index low high rrln robins).
Proof.
  intros Hnote. unfold printRobins. apply lines_for.
  intros [j [r sample]] _.
  destruct (below_min layer index); [apply lines_ret|].
  destruct (above_max layer index); [apply lines_ret|]. apply Hnote.
Qed.

End GroupLines.

(** ** Pan *)

Section Pan.
Context `{Extern} `{Sound}.
Variable globalLayer : Global.t.

Lemma entry_store_inv d dyn index rr s dyn' index' rr' s' :
  entry (store d dyn index rr s) dyn' index' rr' = Some s' ->
  s' = s \/ entry d dyn' index' rr' = Some s'.
Proof.
  unfold entry, store.
  destruct (decide (dyn = dyn')) as [<-|Hd];
    [rewrite lookup_insert_eq | rewrite lookup_insert_ne by done; auto].
  simpl.
  destruct (decide (index = index')) as [<-|Hi];
    [rewrite lookup_insert_eq | rewrite lookup_insert_ne by done].
  - simpl.
    destruct (decide (rr = rr')) as [<-|Hr];
      [rewrite lookup_insert_eq | rewrite lookup_insert_ne by done].
    + intros [= <-]. now left.
    + intros Hs. right. destruct (d !! dyn) as [ns|]; simpl in *.
      * destruct (ns !! index) as [rs|]; simpl in *; [exact Hs|].
        now rewrite lookup_empty in Hs.
      * now rewrite lookup_empty in Hs.
  - intros Hs. right. destruct (d !! dyn) as [ns|]; simpl in *; [exact Hs|].
    now rewrite lookup_empty in Hs.
Qed.

Lemma pan_zero_empty : pan_zero ∅.
Proof. intros dyn index rr s. unfold entry. now rewrite lookup_empty. Qed.

Lemma pan_zero_store d dyn index rr filename :
  pan_zero d -> pan_zero (store d dyn index rr (Sample.init filename)).
Proof.
  intros Hd dyn' index' rr' s' [->|Hs]%entry_store_inv; [reflexivity|].
  eapply Hd, Hs.
Qed.

Lemma pan_zero_init args name cfg layer :
  Layer.init args globalLayer name cfg = Ok layer ->
  pan_zero (Layer.dynamics layer).
Proof.
  intros Hinit. unfold Layer.init, mbind, exc_bind in Hinit.
  step_init Hinit. injection Hinit as <-. apply pan_zero_empty.
Qed.

Lemma pan_zero_parseNote layer filename parsed layer' i :
  pan_zero (Layer.dynamics layer) ->
  parseNote globalLayer layer filename parsed = Ok (layer', i) ->
  pan_zero (Layer.dynamics layer').
Proof.
  intros Hd. unfold parseNote.
  destruct (parsePieces _ _ _) as [st|]; simpl; [|discriminate].
  repeat match goal with
         | |- context [if ?b then _ else _] => destruct b
         end;
    intros [= <- _]; simpl; auto using pan_zero_store.
Qed.

Lemma pan_zero_scanFile layer filename layer' :
  pan_zero (Layer.dynamics layer) ->
  scanFile globalLayer layer filename = Ok layer' ->
  pan_zero (Layer.dynamics layer').
Proof.
  intros Hd. unfold scanFile.
  destruct (Fmt.strip filename) as [parsed|]; [|now intros [= <-]].
  destruct (negb _); [now intros [= <-]|].
  destruct (negb _); [now intros [= <-]|].
  destruct (apply_subs _ parsed) as [p1|]; simpl; [|discriminate].
  destruct (apply_subs _ p1) as [p2|]; simpl; [|discriminate].
  destruct (parseNote _ _ _ _) as [[l i]|] eqn:Hp; simpl; [|discriminate].
  intros [= <-]. eauto using pan_zero_parseNote.
Qed.

Lemma pan_zero_scanLayer layer files layer' :
  pan_zero (Layer.dynamics layer) ->
  scanLayer globalLayer layer files = Ok layer' ->
  pan_zero (Layer.dynamics layer').
Proof.
  destruct files as [files|]; simpl; [|now intros Hd [= <-]].
  revert layer. induction files as [|f files IH]; intros layer Hd; simpl.
  - now intros [= <-].
  - destruct (scanFile globalLayer layer f) as [l1|] eqn:Hf; simpl;
      [|discriminate].
    apply IH. eauto using pan_zero_scanFile.
Qed.

Lemma analyzeFile_pan layer sample :
  Sample.pan (analyzeFile layer sample) = Sample.pan sample.
Proof. unfold analyzeFile. now destruct (measure _ _). Qed.

Lemma pan_zero_analyzeLayer layer :
  pan_zero (Layer.dynamics layer) ->
  pan_zero (Layer.dynamics (analyzeLayer layer)).
Proof.
  intros Hd. unfold analyzeLayer.
  destruct (Layer.isRelease layer || Layer.skipAnalysis layer); [exact Hd|].
  simpl. intros dyn index rr s. unfold entry. rewrite lookup_fmap.
  destruct (Layer.dynamics layer !! dyn) as [ns|] eqn:Hns; [|discriminate].
  simpl. rewrite lookup_fmap.
  destruct (ns !! index) as [rs|] eqn:Hrs; [|discriminate].
  simpl. rewrite lookup_fmap.
  destruct (rs !! rr) as [s0|] eqn:Hs0; [|discriminate].
  intros [= <-]. rewrite analyzeFile_pan. apply (Hd dyn index rr).
  unfold entry. rewrite Hns. simpl. rewrite Hrs. exact Hs0.
Qed.

Lemma printNote_no_pan args layer note index low high rr rrLen :
  Sample.pan note = 0%Q ->
  lines (fun t => ~ is_pan t) (printNote args layer note index low high rr rrLen).
Proof.
  intros Hpan. unfold printNote, print_val. rewrite Hpan.
  change (negb (Qeq_bool 0 0)) with false. cbv iota. lines_tac.
Qed.

Lemma printLayer_no_pan args layer li :
  pan_zero (Layer.dynamics layer) ->
  lines (fun t => ~ is_pan t) (printLayer args globalLayer layer li).
Proof.
  intros Hd. unfold printLayer. apply lines_for.
  intros [i [dyn notes]] Hnotes%elem_of_enumerate.
  assert (Hdyn : Layer.dynamics layer !! dyn = Some notes).
  { apply elem_of_sorted_items.
    destruct (Layer.invertDynamics layer); [now apply elem_of_reverse|done]. }
  lines_tac. unfold printDynamic. lines_tac.
  apply lines_for. intros [k [index robins]] Hrobins%elem_of_enumerate.
  apply elem_of_sorted_items in Hrobins.
  lines_tac. unfold printRobins. apply lines_for.
  intros [j [rr sample]] Hsample%elem_of_enumerate.
  apply elem_of_sorted_items in Hsample.
  destruct (below_min layer index); [apply lines_ret|].
  destruct (above_max layer index); [apply lines_ret|].
  apply printNote_no_pan. apply (Hd dyn index rr).
  unfold entry. rewrite Hdyn. simpl. rewrite Hrobins. exact Hsample.
Qed.

(** C9: a sample record is constructed with pan 0, the analysis leaves
    the pan of a record as it is, every record of a layer at any point
    of a run has pan 0, and nothing [printLayer] writes for such a
    layer is a pan directive. *)
Theorem pan_always_zero layer :
  reachable globalLayer layer ->
  (forall filename, Sample.pan (Sample.init filename) = 0%Q)
  /\ (forall l sample,
        Sample.pan (analyzeFile l sample) = Sample.pan sample)
  /\ pan_zero (Layer.dynamics layer)
  /\ (forall args li,
        lines (fun t => ~ is_pan t) (printLayer args globalLayer layer li)).
Proof.
  intros Hreach.
  assert (Hd : pan_zero (Layer.dynamics layer)).
  { induction Hreach as [a name cfg l Hinit | l files l' _ IH Hscan | l _ IH].
    - eapply pan_zero_init, Hinit.
    - eapply pan_zero_scanLayer, Hscan. exact IH.
    - apply pan_zero_analyzeLayer, IH. }
  split; [reflexivity|]. split; [apply analyzeFile_pan|].
  split; [exact Hd|]. intros a li. now apply printLayer_no_pan.
Qed.

End Pan.

Lemma pan_always_zero_witness :
  pan_zero
    (Layer.dynamics
       (@analyzeLayer Plain.extern (Plain.loud (-3))
          (Plain.layer None (6 # 10) (Plain.scanned ["c3.wav"; "d3 rr1.wav"])))).
Proof.
  apply (@pan_always_zero Plain.extern (Plain.loud (-3)) Plain.globalLayer).
  apply reach_analyze.
  apply (reach_scan Plain.globalLayer Plain.sustain
           (Some ["c3.wav"; "d3 rr1.wav"])).
  - apply (reach_init Plain.globalLayer Plain.args "sustain"
             {[ "source" := YStr "samples" ]}).
    reflexivity.
  - reflexivity.
Defined.

(** ** Key ranges *)

Section KeyRanges.
Context `{Extern}.
Variable args : Args.

Lemma borders_lookup keys i k k' :
  keys !! i = Some k -> keys !! S i = Some k' ->
  borders keys !! i = Some ((k + k') / 2).
Proof.
  revert i. induction keys as [|a keys IH]; intros i Hk Hk'; [discriminate|].
  destruct keys as [|b keys]; [discriminate|].
  destruct i as [|i].
  - simpl in Hk, Hk'. injection Hk as ->. injection Hk' as ->. reflexivity.
  - change (borders (b :: keys) !! i = Some ((k + k') / 2)).
    apply IH; assumption.
Qed.

(** The bounds computed at lines 492-493 tile: the high bound at a
    position is the floor of the midpoint with the next key, and the low
    bound at the next position is that plus one. *)
Lemma key_bounds_tile keys i k k' :
  keys !! i = Some k -> keys !! S i = Some k' ->
  key_high (borders keys) keys i = Ok (Some ((k + k') / 2))
  /\ key_low (borders keys) (S i) = Ok (Some ((k + k') / 2 + 1)).
Proof.
  intros Hk Hk'. assert (Hb := borders_lookup keys i k k' Hk Hk').
  apply lookup_lt_Some in Hk'.
  unfold key_high, key_low, py_index. rewrite Hb. simpl.
  destruct (Z.eqb_spec (Z.of_nat i) (Z.of_nat (length keys) - 1)); [lia|].
  auto.
Qed.

(** A key outside a bound that passes the truth test of lines 495 and
    497 gets no region. *)
Lemma printRobins_excluded layer index low high rrln robins :
  below_min layer index = true \/ above_max layer index = true ->
  printRobins args layer index low high rrln robins = mret tt.
Proof.
  intros Hout. unfold printRobins. apply for_skip.
  intros [j [r sample]] _.
  destruct (below_min layer index); [reflexivity|].
  destruct Hout as [Hb|Ha]; [discriminate|]. now rewrite Ha.
Qed.

Lemma above_max_spec layer index m :
  Layer.max layer = Some m ->
  above_max layer index = negb (m =? 0)%Z && (m <? index)%Z.
Proof. intros Hm. unfold above_max. now rewrite Hm. Qed.

Lemma below_min_spec layer index m :
  Layer.min layer = Some m ->
  below_min layer index = negb (m =? 0)%Z && (index <? m)%Z.
Proof. intros Hm. unfold below_min. now rewrite Hm. Qed.

End KeyRanges.

(** C7: the claim fails for a registry that holds the keys 0 and 1 (the
    files [c0.wav] and [c#0.wav]) with exact mode off. The border
    between them is 0; the region of key 0 is printed with neither
    [lokey] nor [hikey], so it has no high bound, while the region of
    key 1 has [lokey=1]. *)
Theorem first_region_has_no_hikey :
  let layer := Plain.layer None (6 # 10) (Plain.scanned ["c0.wav"; "c#0.wav"]) in
  Layer.exact layer = false
  /\ (sorted_keys <$> Layer.dynamics layer !! 0) = Some [0; 1]
  /\ borders [0; 1] = [0]
  /\ printLayer Plain.args Plain.globalLayer layer 0
     = ([Sfz.group; Sfz.blank;
         Sfz.region; Sfz.sample "samples" "c0.wav" "."; Sfz.pitch_keycenter 0;
         Sfz.blank;
         Sfz.region; Sfz.sample "samples" "c#0.wav" "."; Sfz.pitch_keycenter 1;
         Sfz.lokey 1; Sfz.blank],
        Ok tt).
Proof. repeat split; vm_compute; reflexivity. Qed.

(** C4: the claim fails for a layer configured with [max: 0] whose
    registry holds the keys 0 and 5 (the files [0.wav] and [5.wav]).
    Key 5 lies above the bound, the test of line 497 does not hold for
    it, and its region is printed. *)
Theorem max_zero_excludes_nothing :
  let layer := Plain.layer (Some 0) (6 # 10) (Plain.scanned ["0.wav"; "5.wav"]) in
  Layer.max layer = Some 0
  /\ (sorted_keys <$> Layer.dynamics layer !! 0) = Some [0; 5]
  /\ above_max layer 5 = false
  /\ printLayer Plain.args Plain.globalLayer layer 0
     = ([Sfz.group; Sfz.blank;
         Sfz.region; Sfz.sample "samples" "0.wav" "."; Sfz.pitch_keycenter 0;
         Sfz.hikey 2; Sfz.blank;
         Sfz.region; Sfz.sample "samples" "5.wav" "."; Sfz.pitch_keycenter 5;
         Sfz.lokey 3; Sfz.blank],
        Ok tt).
Proof. repeat split; vm_compute; reflexivity. Qed.

(** ** More on tokens *)

Section TokenClasses.

Lemma search_digits d :
  Str.digits d = true -> Re.R_num_search d = Some d.
Proof.
  intros Hd. assert (He : Re.digits_eos d = Some d).
  { rewrite <- (append_empty_r d) at 1. now apply digits_eos_intro. }
  destruct d; cbn [Re.R_num_search]; now rewrite He.
Qed.

Lemma search_skip c s :
  Str.is_digit c = false ->
  Re.R_num_search (String c s) = Re.R_num_search s.
Proof.
  intros Hc. cbn [Re.R_num_search].
  unfold Re.digits_eos at 1. simpl. now rewrite Hc.
Qed.

Lemma R_dyn_velocity r :
  Re.opt_l_digits_eos r = true -> Re.R_dyn (String "v" r) = true.
Proof.
  intros Hr. unfold Re.R_dyn. cbn [Str.after Ascii.eqb Bool.eqb].
  rewrite Hr. now rewrite !orb_true_r.
Qed.


End TokenClasses.


Section Raising.
Context `{Extern}.
Variable globalLayer : Global.t.

Lemma raising_mark_dec f : {raising_mark f} + {~ raising_mark f}.
Proof.
  unfold raising_mark.
  destruct (string_dec f ("mp" +:+ newline)); [auto|].
  destruct (string_dec f ("mf" +:+ newline)); [auto|].
  right. tauto.
Qed.

Lemma parseToken_raising layer st fc :
  raising_mark (remap globalLayer layer fc) ->
  parseToken globalLayer layer st fc = Raise AttributeError.
Proof. unfold parseToken. intros [-> | ->]; reflexivity. Qed.

Lemma parseToken_raise_inv layer st fc e :
  parseToken globalLayer layer st fc = Raise e ->
  e = AttributeError /\ raising_mark (remap globalLayer layer fc).
Proof.
  intros He.
  destruct (raising_mark_dec (remap globalLayer layer fc)) as [Hm|Hm].
  - rewrite (parseToken_raising layer st fc Hm) in He.
    injection He as <-. auto.
  - destruct (parseToken_ok globalLayer layer st fc Hm) as [st' Hst'].
    congruence.
Qed.

Lemma parsePiece_raising layer st u :
  raising_piece globalLayer layer u ->
  parsePiece globalLayer layer st u = Raise AttributeError.
Proof. destruct u as [s|]; [apply parseToken_raising|reflexivity]. Qed.

Lemma parsePiece_raise_inv layer st u e :
  parsePiece globalLayer layer st u = Raise e ->
  e = AttributeError /\ raising_piece globalLayer layer u.
Proof.
  destruct u as [s|]; [apply parseToken_raise_inv|].
  intros [= <-]. split; [reflexivity|exact I].
Qed.

Lemma foldM_parsePiece_raises layer fcs st e :
  foldM (parsePiece globalLayer layer) fcs st = Raise e <->
  e = AttributeError /\ Exists (raising_piece globalLayer layer) fcs.
Proof.
  revert st. induction fcs as [|u fcs IH]; intros st; simpl.
  - split; [discriminate|]. intros [_ Hex]. inversion Hex.
  - destruct (parsePiece globalLayer layer st u) as [st1|e1] eqn:Hu; simpl.
    + rewrite IH. split; intros [He Hex]; (split; [exact He|]).
      * now right.
      * inversion Hex as [? ? Hm|]; subst; [|assumption].
        rewrite (parsePiece_raising layer st u Hm) in Hu. discriminate.
    + apply parsePiece_raise_inv in Hu as [-> Hm]. split.
      * intros [= <-]. split; [reflexivity|now left].
      * now intros [-> _].
Qed.


End Raising.


Section Exclusive.

Lemma note_head c r :
  Re.matched (Re.R_note (String c r)) = true -> Re.is_note_letter c = true.
Proof.
  unfold Re.R_note. destruct (Re.is_note_letter c); [reflexivity|discriminate].
Qed.

Lemma dyn_head_spec c r : Re.R_dyn (String c r) = true -> dyn_head c = true.
Proof. by_char c. Qed.

Lemma num_head c r :
  Re.matched (Re.R_num_match (String c r)) = true -> Str.is_digit c = true.
Proof.
  unfold Re.R_num_match, Re.digits_eos. simpl.
  destruct (Str.is_digit c); [reflexivity|discriminate].
Qed.

Lemma rr_head c r :
  Re.matched (Re.R_rr (String c r)) = true -> Ascii.eqb "r" c = true.
Proof.
  unfold Re.R_rr. cbn [Str.after].
  destruct (Ascii.eqb "r" c); [reflexivity|discriminate].
Qed.

Lemma heads_apart c :
  (Re.is_note_letter c = true -> dyn_head c = true -> c = "f"%char)
  /\ (Re.is_note_letter c = true -> Str.is_digit c = false)
  /\ (Re.is_note_letter c = true -> Ascii.eqb "r" c = false)
  /\ (dyn_head c = true -> Str.is_digit c = false)
  /\ (dyn_head c = true -> Ascii.eqb "r" c = false)
  /\ (Str.is_digit c = true -> Ascii.eqb "r" c = false).
Proof.
  destruct c as [[] [] [] [] [] [] [] []];
    repeat split; intros; try discriminate; reflexivity.
Qed.

Lemma note_tail c r :
  Re.matched (Re.R_note (String c r)) = true ->
  exists a r', r = String a r' /\ note_tail_head a = true.
Proof.
  unfold Re.R_note, note_tail_head.
  destruct (Re.is_note_letter c); [|discriminate].
  destruct r as [|a r']; [discriminate|]. intros Hm. exists a, r'.
  split; [reflexivity|].
  destruct (Re.is_accidental a); [reflexivity|]. simpl.
  unfold Re.int_eos in Hm. destruct (Ascii.eqb a "-"); [reflexivity|].
  unfold Re.digits_eos in Hm. simpl in Hm.
  destruct (Str.is_digit a); [reflexivity|discriminate].
Qed.

Lemma note_tail_head_spec a :
  note_tail_head a = true ->
  Ascii.eqb "f" a = false /\ (nat_of_ascii a =? 10)%nat = false.
Proof. destruct a as [[] [] [] [] [] [] [] []]; try discriminate; auto. Qed.

Lemma note_f_not_dyn r :
  Re.matched (Re.R_note (String "f" r)) = true ->
  Re.R_dyn (String "f" r) = false.
Proof.
  intros (a & r' & -> & Ha)%note_tail.
  apply note_tail_head_spec in Ha as [Hf Hn].
  assert (E : forall s, Re.R_dyn (String "f" s) = Re.run_eos "f" (String "f" s)).
  { intros s. unfold Re.R_dyn.
    change (Re.run_eos "p" (String "f" s)) with false.
    change (Re.lit_eos "mp" (String "f" s)) with false.
    change (Re.lit_eos "mf" (String "f" s)) with false.
    change (Str.after "v" (String "f" s)) with (@None string).
    change (Str.after "l" (String "f" s)) with (@None string).
    now rewrite !orb_false_r. }
  rewrite E. unfold Re.run_eos. cbn [Str.span].
  rewrite Ascii.eqb_refl, Hf. cbn [Re.eos].
  destruct r'; [exact Hn | reflexivity].
Qed.


End Exclusive.


Section NumberTokens.
Context `{Extern}.
Variable globalLayer : Global.t.

Lemma R_note_digits d : Str.digits d = true -> Re.R_note d = None.
Proof.
  intros (c & r & -> & Hc)%digits_head.
  destruct (Re.R_note (String c r)) eqn:E; [|reflexivity].
  assert (Hn : Re.is_note_letter c = true) by (apply (note_head c r); now rewrite E).
  destruct (heads_apart c) as (_ & Hnn & _). rewrite (Hnn Hn) in Hc. discriminate.
Qed.

Lemma R_dyn_digits d : Str.digits d = true -> Re.R_dyn d = false.
Proof.
  intros (c & r & -> & Hc)%digits_head.
  destruct (Re.R_dyn (String c r)) eqn:E; [|reflexivity].
  apply dyn_head_spec in E.
  destruct (heads_apart c) as (_ & _ & _ & Hdn & _). rewrite (Hdn E) in Hc.
  discriminate.
Qed.


End NumberTokens.


(** ** The registry *)

Section Registry.
Context `{Extern}.
Variable globalLayer : Global.t.

Lemma with_dynamics_id (layer : Layer.t) :
  Layer.with_dynamics layer (Layer.dynamics layer) = layer.
Proof. now destruct layer. Qed.

Lemma entry_store_other d dyn index rr s dyn' index' rr' :
  (dyn', index', rr') <> (dyn, index, rr) ->
  entry (store d dyn index rr s) dyn' index' rr' = entry d dyn' index' rr'.
Proof.
  intros Hne. unfold entry, store.
  destruct (decide (dyn = dyn')) as [<-|Hd];
    [rewrite lookup_insert_eq | now rewrite lookup_insert_ne].
  simpl.
  destruct (decide (index = index')) as [<-|Hi];
    [rewrite lookup_insert_eq | rewrite lookup_insert_ne by done].
  - simpl. rewrite lookup_insert_ne by congruence.
    destruct (d !! dyn) as [ns|]; simpl; [|now rewrite lookup_empty].
    destruct (ns !! index); simpl; [reflexivity|now rewrite lookup_empty].
  - destruct (d !! dyn) as [ns|]; simpl; [reflexivity|now rewrite lookup_empty].
Qed.

Lemma store_store d dyn index rr s1 s2 :
  store (store d dyn index rr s1) dyn index rr s2 = store d dyn index rr s2.
Proof.
  unfold store. rewrite lookup_insert_eq. simpl.
  rewrite lookup_insert_eq. simpl. now rewrite !insert_insert_eq.
Qed.

Lemma digits_val_nonneg s acc :
  Str.all_digits s = true -> 0 <= acc -> 0 <= Str.digits_val acc s.
Proof.
  revert acc. induction s as [|c s IH]; intros acc Hs Hacc; [exact Hacc|].
  simpl in Hs. apply andb_true_iff in Hs as [Hc Hs]. simpl. apply IH; [exact Hs|].
  assert (0 <= Str.digit_val c); [|lia].
  revert Hc. clear. by_char c; intros _; vm_compute; discriminate.
Qed.

Lemma parseToken_rr layer st fc st' :
  parseToken globalLayer layer st fc = Ok st' -> 0 <= rr st -> 0 <= rr st'.
Proof.
  unfold parseToken.
  destruct (Re.R_note _) as [[[c acc] g]|].
  { destruct (noteNames c); simpl; [|discriminate].
    destruct (Str.int g); simpl; [|discriminate]. now intros [= <-]. }
  destruct (Re.R_dyn _).
  { destruct (dynToInt _); simpl; [|discriminate]. now intros [= <-]. }
  destruct (Re.R_num_match _).
  { destruct (Str.int _); simpl; [|discriminate]. now intros [= <-]. }
  destruct (Re.R_rr _) as [g1|] eqn:Hrr; [|now intros [= <-]].
  unfold Re.R_rr in Hrr. destruct (Str.after "rr" _); [|discriminate].
  apply digits_eos_spec in Hrr as [Hg _].
  rewrite (int_digits_only g1 Hg). simpl. intros [= <-] _. simpl.
  apply digits_val_nonneg; [now apply digits_all | lia].
Qed.

Lemma parsePieces_rr layer fcs st :
  parsePieces globalLayer layer fcs = Ok st -> 0 <= rr st.
Proof.
  unfold parsePieces.
  assert (Hgen : forall st0, 0 <= rr st0 ->
            foldM (parsePiece globalLayer layer) fcs st0 = Ok st -> 0 <= rr st).
  { induction fcs as [|u fcs IH]; intros st0 H0; simpl.
    - now intros [= <-].
    - destruct (parsePiece globalLayer layer st0 u) as [st1|] eqn:Hu; simpl;
        [|discriminate].
      apply IH. destruct u as [s|]; [|discriminate].
      eauto using parseToken_rr. }
  apply Hgen. simpl. lia.
Qed.

(** What [parseNote] does to the layer when it returns. *)
Lemma parseNote_outcome layer filename parsed layer' i :
  parseNote globalLayer layer filename parsed = Ok (layer', i) ->
  (i = Accepted filename
   /\ exists dyn index rr,
       0 <= index /\ 0 <= rr
       /\ layer' = Layer.with_dynamics layer
                     (store (Layer.dynamics layer) dyn index rr
                        (Sample.init filename)))
  \/ ((i = UnknownNote filename \/ i = NegativeIndex filename)
      /\ layer' = layer).
Proof.
  unfold parseNote.
  destruct (parsePieces _ _ _) as [st|] eqn:Hst; simpl; [|discriminate].
  apply parsePieces_rr in Hst.
  destruct (index st =? -255)%Z.
  - destruct (Layer.onekey layer).
    + intros [= <- <-]. left. split; [reflexivity|].
      exists (dyn st), 60, (rr st). repeat split; [lia|exact Hst].
    + destruct (Layer.unpitched layer); intros [= <- <-]; [left|right; auto].
      split; [reflexivity|]. eexists (dyn st), _, (rr st).
      split; [|split; [exact Hst|reflexivity]]. lia.
  - destruct (Z.ltb_spec (index st + (Layer.octaveOffset layer * 12
                                      + Layer.transpose layer)) 0);
      intros [= <- <-]; [right; auto|left].
    split; [reflexivity|]. eexists (dyn st), _, (rr st).
    split; [|split; [exact Hst|reflexivity]]. lia.
Qed.



End Registry.



Section WellFormed.
Context `{Extern} `{Sound}.
Variable globalLayer : Global.t.

Lemma registry_wf_empty : registry_wf ∅.
Proof. intros dyn ns Hns. now rewrite lookup_empty in Hns. Qed.

Lemma registry_wf_store d dyn index rr s :
  registry_wf d -> 0 <= index -> 0 <= rr ->
  registry_wf (store d dyn index rr s).
Proof.
  intros Hd Hi Hr dyn' ns'. unfold store.
  destruct (decide (dyn = dyn')) as [<-|Hne];
    [rewrite lookup_insert_eq | rewrite lookup_insert_ne by done; apply Hd].
  intros [= <-]. split; [apply insert_non_empty|].
  intros index' rs'.
  destruct (decide (index = index')) as [<-|Hne];
    [rewrite lookup_insert_eq | rewrite lookup_insert_ne by done].
  - intros [= <-]. split; [exact Hi|]. split; [apply insert_non_empty|].
    intros rr' s'.
    destruct (decide (rr = rr')) as [<-|Hne];
      [intros _; exact Hr | rewrite lookup_insert_ne by done].
    destruct (d !! dyn) as [ns|] eqn:Hns; simpl;
      [|now rewrite lookup_empty].
    destruct (ns !! index) as [rs|] eqn:Hrs; simpl;
      [|now rewrite lookup_empty].
    destruct (Hd dyn ns Hns) as [_ Hk].
    destruct (Hk index rs Hrs) as (_ & _ & Hrr). apply Hrr.
  - destruct (d !! dyn) as [ns|] eqn:Hns; simpl;
      [|now rewrite lookup_empty].
    apply (proj2 (Hd dyn ns Hns)).
Qed.

Lemma registry_wf_fmap (f : Sample.t -> Sample.t) d :
  registry_wf d ->
  registry_wf (fmap (M := gmap Z) (fmap (M := gmap Z) (fmap (M := gmap Z) f)) d).
Proof.
  intros Hd dyn ns'. rewrite lookup_fmap.
  destruct (d !! dyn) as [ns|] eqn:Hns; [|discriminate]. intros [= <-].
  destruct (Hd dyn ns Hns) as [Hne Hkeys].
  split; [now rewrite fmap_empty_iff|].
  intros index rs'. rewrite lookup_fmap.
  destruct (ns !! index) as [rs|] eqn:Hrs; [|discriminate]. intros [= <-].
  destruct (Hkeys index rs Hrs) as (Hi & Hne' & Hrr).
  split; [exact Hi|]. split; [now rewrite fmap_empty_iff|].
  intros rr s'. rewrite lookup_fmap.
  destruct (rs !! rr) as [s|] eqn:Hs; [|discriminate]. intros _.
  eapply Hrr, Hs.
Qed.

Lemma registry_wf_scanFile layer filename layer' :
  registry_wf (Layer.dynamics layer) ->
  scanFile globalLayer layer filename = Ok layer' ->
  registry_wf (Layer.dynamics layer').
Proof.
  intros Hd. unfold scanFile.
  destruct (Fmt.strip filename) as [parsed|]; [|now intros [= <-]].
  destruct (negb _); [now intros [= <-]|].
  destruct (negb _); [now intros [= <-]|].
  destruct (apply_subs _ parsed) as [p1|]; simpl; [|discriminate].
  destruct (apply_subs _ p1) as [p2|]; simpl; [|discriminate].
  destruct (parseNote _ _ _ _) as [[l i]|] eqn:Hp; simpl; [|discriminate].
  intros [= <-].
  apply parseNote_outcome in Hp
    as [[_ (dyn & index & rr & Hi & Hr & ->)]|[_ ->]]; [|exact Hd].
  simpl. now apply registry_wf_store.
Qed.

Lemma reachable_wf layer :
  reachable globalLayer layer -> registry_wf (Layer.dynamics layer).
Proof.
  induction 1 as [a name cfg l Hinit | l files l' _ IH Hscan | l _ IH].
  - unfold Layer.init, mbind, exc_bind in Hinit.
    step_init Hinit. injection Hinit as <-. apply registry_wf_empty.
  - destruct files as [files|]; simpl in Hscan; [|now injection Hscan as <-].
    revert l IH Hscan. induction files as [|f files IHf]; intros l IH; simpl.
    + now intros [= <-].
    + destruct (scanFile globalLayer l f) as [l1|] eqn:Hf; simpl; [|discriminate].
      apply IHf. eauto using registry_wf_scanFile.
  - unfold analyzeLayer.
    destruct (Layer.isRelease l || Layer.skipAnalysis l); [exact IH|].
    simpl. now apply registry_wf_fmap.
Qed.


End WellFormed.


(** ** Bounds that are zero *)

Section ZeroBounds.
Context `{Extern} `{Sound}.
Variable args : Args.
Variable globalLayer : Global.t.

Lemma elem_of_sorted_keys {A} (d : gmap Z A) k :
  k ∈ sorted_keys d <-> is_Some (d !! k).
Proof.
  unfold sorted_keys. rewrite merge_sort_Permutation.
  rewrite list_elem_of_fmap. split.
  - intros ([k' v] & -> & Hkv%elem_of_map_to_list). eauto.
  - intros [v Hv]. exists (k, v). split; [reflexivity|].
    now apply elem_of_map_to_list.
Qed.

Lemma borders_nonneg keys :
  Forall (fun k => 0 <= k) keys -> Forall (fun b => 0 <= b) (borders keys).
Proof.
  induction 1 as [|a keys Ha Hkeys IH]; [constructor|].
  destruct Hkeys as [|b keys Hb Hkeys]; [constructor|].
  change (Forall (fun b => 0 <= b) ((a + b) / 2 :: borders (b :: keys))).
  constructor; [|exact IH]. apply Z.div_pos; lia.
Qed.

Lemma key_low_positive keys i low :
  Forall (fun k => 0 <= k) keys ->
  key_low (borders keys) i = Ok (Some low) -> 1 <= low.
Proof.
  intros Hkeys%borders_nonneg. destruct i as [|j]; [discriminate|].
  unfold key_low, py_index.
  destruct (borders keys !! j) as [b|] eqn:Hb; simpl; [|discriminate].
  intros [= <-]. rewrite Forall_lookup in Hkeys.
  specialize (Hkeys j b Hb). simpl in Hkeys. lia.
Qed.

(** C10: a low bound that is 0 is printed like one that is [None].
    The group of a dynamic level whose low velocity bound is 0 is, line
    for line, the group printed for [None], and holds no [lovel].  A low
    key bound is never 0: the keys of a layer are not negative, so the
    low bound computed for a key is at least 1 wherever there is one;
    and a region handed the low key bound 0 holds no [lokey]. *)
Theorem zero_low_bound_is_unset layer :
  reachable globalLayer layer ->
  (forall notes vhigh cc,
      printDynamic args globalLayer layer notes (Some 0) vhigh cc
      = printDynamic args globalLayer layer notes None vhigh cc
      /\ lines (fun t => ~ is_lovel t)
               (printDynamic args globalLayer layer notes (Some 0) vhigh cc))
  /\ (forall dyn (notes : notes) i low,
        Layer.dynamics layer !! dyn = Some notes ->
        key_low (borders (sorted_keys notes)) i = Ok low ->
        low <> Some 0)
  /\ (forall note index high rr rrLen,
        lines (fun t => ~ is_lokey t)
              (printNote args layer note index (Some 0) high rr rrLen)).
Proof.
  intros Hwf%reachable_wf. split; [|split].
  - intros notes vhigh cc. split; [reflexivity|].
    unfold printDynamic. simpl truthy. cbv iota.
    lines_tac. apply lines_for. intros [i [k robins]] _.
    lines_tac. apply printRobins_lines. intros.
    apply printNote_lines_not_lovel.
  - intros dyn notes i low Hnotes Hlow ->.
    apply key_low_positive in Hlow; [lia|].
    apply Forall_forall. intros k [rs Hk]%elem_of_sorted_keys.
    destruct (Hwf dyn notes Hnotes) as [_ Hkeys].
    now destruct (Hkeys k rs Hk).
  - intros note index high rr rrLen.
    unfold printNote, print_val. simpl truthy. cbv iota. lines_tac.
Qed.

End ZeroBounds.

Lemma zero_low_bound_is_unset_witness :
  let layer :=
    @analyzeLayer Plain.extern (Plain.loud (-3))
      (Plain.layer None (6 # 10) (Plain.scanned ["c3.wav"; "d3 rr1.wav"])) in
  (forall notes vhigh cc,
      printDynamic Plain.args Plain.globalLayer layer notes (Some 0) vhigh cc
      = printDynamic Plain.args Plain.globalLayer layer notes None vhigh cc
      /\ lines (fun t => ~ is_lovel t)
               (printDynamic Plain.args Plain.globalLayer layer notes
                  (Some 0) vhigh cc))
  /\ (forall dyn (notes : notes) i low,
        Layer.dynamics layer !! dyn = Some notes ->
        key_low (borders (sorted_keys notes)) i = Ok low ->
        low <> Some 0)
  /\ (forall note index high rr rrLen,
        lines (fun t => ~ is_lokey t)
              (printNote Plain.args layer note index (Some 0) high rr rrLen)).
Proof.
  intros layer.
  apply (@zero_low_bound_is_unset Plain.extern (Plain.loud (-3)) Plain.args
           Plain.globalLayer layer).
  apply reach_analyze.
  apply (reach_scan Plain.globalLayer Plain.sustain
           (Some ["c3.wav"; "d3 rr1.wav"])).
  - apply (reach_init Plain.globalLayer Plain.args "sustain"
             {[ "source" := YStr "samples" ]}).
    reflexivity.
  - reflexivity.
Defined.

Section Unpitched.
Context `{Extern}.
Variable globalLayer : Global.t.

Lemma size_initial_segment {A} (ns : gmap Z A) (n : nat) :
  (forall k, is_Some (ns !! k) <-> 0 <= k < Z.of_nat n) -> size ns = n.
Proof.
  intros Hk. rewrite <- size_dom.
  assert (Hdom : dom ns = list_to_set (Z.of_nat <$> seq 0 n)).
  { apply set_eq. intros k. rewrite elem_of_dom, Hk, elem_of_list_to_set.
    rewrite list_elem_of_fmap. split.
    - intros Hr. exists (Z.to_nat k). split; [lia|].
      apply elem_of_seq. lia.
    - intros (j & -> & Hj%elem_of_seq). lia. }
  rewrite Hdom, size_list_to_set, length_fmap, length_seq; [reflexivity|].
  apply NoDup_fmap; [intros ? ?; lia | apply NoDup_seq].
Qed.


End Unpitched.

Lemma kit_drums :
  Layer.init Plain.args Plain.globalLayer "drums"
    (<[ "unpitched" := YNull ]> {[ "source" := YStr "samples" ]})
  = Ok (Kit.drums ∅).
Proof. reflexivity. Qed.


(** ** Directory scan *)

Section Extensions.

Lemma ext_spec lit s r :
  Fmt.ext lit s = Some r -> s = lit +:+ r /\ Re.eos r = true.
Proof.
  unfold Fmt.ext. destruct (Str.after lit s) as [rest|] eqn:Ha; [|discriminate].
  destruct (Re.eos rest) eqn:He; [|discriminate].
  intros [= <-]. split; [now apply after_spec | exact He].
Qed.

Lemma here_spec s r :
  Fmt.here s = Some r ->
  exists ext, audio_ext ext /\ s = ext +:+ r /\ Re.eos r = true.
Proof.
  unfold Fmt.here, audio_ext.
  destruct (Fmt.ext ".wav" s) as [r1|] eqn:E1.
  { intros [= <-]. apply ext_spec in E1. eauto 6. }
  destruct (Fmt.ext ".ogg" s) as [r2|] eqn:E2.
  { intros [= <-]. apply ext_spec in E2. eauto 6. }
  intros E3. apply ext_spec in E3. eauto 6.
Qed.

Lemma here_ext ext : audio_ext ext -> Fmt.here ext = Some EmptyString.
Proof. intros [->|[->| ->]]; reflexivity. Qed.

(** No extension, with or without a final newline, ends with a longer
    text that itself ends with an extension. *)
Lemma here_inside c b ext :
  audio_ext ext -> Fmt.here (String c (b +:+ ext)) = None.
Proof.
  intros Hext. destruct (Fmt.here _) as [r|] eqn:Hh; [exfalso|reflexivity].
  apply here_spec in Hh as (ext' & Hext' & Hs & He).
  apply eos_cases in He as [-> | ->];
    destruct Hext as [->|[->| ->]]; destruct Hext' as [->|[->| ->]];
    unfold newline in Hs; rewrite ?append_cons in Hs;
    change (EmptyString +:+ ?x) with x in Hs; injection Hs as _ Hs;
    repeat (destruct b as [|? b];
            [ change (EmptyString +:+ ?x) with x in Hs; discriminate Hs
            | rewrite append_cons in Hs; injection Hs as _ Hs ]);
    try discriminate Hs;
    (destruct b;
     [ change (EmptyString +:+ ?x) with x in Hs
     | rewrite append_cons in Hs ]; discriminate Hs).
Qed.


End Extensions.


Section Provenance.
Context `{Extern} `{Sound}.
Variable globalLayer : Global.t.

Lemma with_dynamics_twice (layer : Layer.t) d d' :
  Layer.with_dynamics (Layer.with_dynamics layer d) d'
  = Layer.with_dynamics layer d'.
Proof. reflexivity. Qed.

Lemma scanFile_provenance layer f layer' :
  scanFile globalLayer layer f = Ok layer' ->
  layer' = Layer.with_dynamics layer (Layer.dynamics layer')
  /\ forall dyn index rr s,
       entry (Layer.dynamics layer') dyn index rr = Some s ->
       entry (Layer.dynamics layer) dyn index rr = Some s
       \/ (is_Some (Fmt.strip f) /\ s = Sample.init f).
Proof.
  unfold scanFile.
  assert (Hsame : Ok layer = Ok layer' ->
    layer' = Layer.with_dynamics layer (Layer.dynamics layer')
    /\ forall dyn index rr s,
         entry (Layer.dynamics layer') dyn index rr = Some s ->
         entry (Layer.dynamics layer) dyn index rr = Some s
         \/ (is_Some (Fmt.strip f) /\ s = Sample.init f)).
  { intros [= <-]. rewrite with_dynamics_id. auto. }
  destruct (Fmt.strip f) as [parsed|]; [|exact Hsame].
  destruct (negb _); [exact Hsame|].
  destruct (negb _); [exact Hsame|].
  destruct (apply_subs _ parsed) as [p1|]; simpl; [|discriminate].
  destruct (apply_subs _ p1) as [p2|]; simpl; [|discriminate].
  destruct (parseNote _ _ _ _) as [[l i]|] eqn:Hp; simpl; [|discriminate].
  intros [= <-].
  apply parseNote_outcome in Hp
    as [[_ (dyn & index & rr & _ & _ & ->)]|[_ ->]].
  - split; [reflexivity|]. simpl. intros dyn' index' rr' s.
    intros [->|Hs]%entry_store_inv; eauto.
  - rewrite with_dynamics_id. auto.
Qed.


Lemma analyzeFile_keeps layer s :
  Sample.name (analyzeFile layer s) = Sample.name s
  /\ Sample.pan (analyzeFile layer s) = Sample.pan s.
Proof. unfold analyzeFile. now destruct (measure _ _). Qed.


End Provenance.

(** ** The key ranges of a group *)

Section KeyPartition.
Context {A : Type}.
Implicit Types d : gmap Z A.

Lemma key_le_total : Total (@key_le A).
Proof. intros a b. unfold key_le. lia. Qed.

Lemma sorted_keys_sorted d : Sorted Z.le (sorted_keys d).
Proof. apply Sorted_merge_sort. intros a b. lia. Qed.

Lemma sorted_keys_NoDup d : NoDup (sorted_keys d).
Proof.
  unfold sorted_keys. rewrite merge_sort_Permutation.
  apply NoDup_fst_map_to_list.
Qed.

(** [sorted(notes.items())] and [sorted(notes)] list the keys in the
    same order. *)
Lemma sorted_items_keys d : (sorted_items d).*1 = sorted_keys d.
Proof.
  apply (Sorted_unique Z.le).
  - apply (Sorted_fmap fst key_le Z.le); [now intros a b|].
    apply (@Sorted_merge_sort _ _ _ key_le_total).
  - apply sorted_keys_sorted.
  - unfold sorted_items, sorted_keys.
    now rewrite !merge_sort_Permutation.
Qed.

Lemma sorted_next_lt (l : list Z) i k k' :
  Sorted Z.le l -> NoDup l ->
  l !! i = Some k -> l !! S i = Some k' -> k < k'.
Proof.
  intros Hs Hn. revert i.
  induction l as [|a l IH]; intros i Hk Hk'; [discriminate|].
  apply Sorted_inv in Hs as [Hs Hhd]. apply NoDup_cons in Hn as [Ha Hn].
  destruct i as [|i].
  - simpl in Hk. injection Hk as ->.
    destruct l as [|b l]; [discriminate|]. simpl in Hk'. injection Hk' as ->.
    apply HdRel_inv in Hhd. assert (k <> k') by (intros ->; apply Ha; left).
    lia.
  - apply (IH Hs Hn i); assumption.
Qed.

Lemma borders_length (l : list Z) : length (borders l) = pred (length l).
Proof.
  induction l as [|a l IH]; [reflexivity|].
  destruct l as [|b l]; [reflexivity|].
  change (S (length (borders (b :: l))) = S (length l)).
  rewrite IH. reflexivity.
Qed.


End KeyPartition.

(** ** Velocity ranges *)

Section VelocityRanges.
Context `{Extern}.
Variable args : Args.
Variable globalLayer : Global.t.

Lemma emit_bind_ret (m : Emit unit) : (m ≫= fun _ => mret tt) = m.
Proof.
  destruct m as [o [[]|e]]; [|reflexivity].
  unfold mbind, Emit_bind, mret, Emit_ret. now rewrite app_nil_r.
Qed.

Lemma emit_lift_ok {A B} (a : A) (f : A -> Emit B) :
  (lift (Ok a) ≫= f) = f a.
Proof. unfold lift, mbind, Emit_bind. now destruct (f a). Qed.



End VelocityRanges.


(** ** Velocity borders under a monotone power *)

Section VelocityOrder.
Context `{Extern}.
Variable layer : Layer.t.

Lemma Qtrunc_floor q : (0 <= q)%Q -> Qtrunc q = Qfloor q.
Proof.
  destruct q as [n d]. unfold Qle, Qtrunc, Qfloor. simpl. intros Hn.
  apply Z.quot_div_nonneg; lia.
Qed.

Lemma Qtrunc_order p q :
  (0 <= p)%Q -> (p <= q)%Q -> (q <= 128)%Q ->
  0 <= Qtrunc p <= Qtrunc q /\ Qtrunc q <= 128.
Proof.
  intros Hp Hpq Hq.
  assert (H0q : (0 <= q)%Q) by (eapply Qle_trans; eassumption).
  rewrite !Qtrunc_floor by assumption.
  assert (Hfp : 0 <= Qfloor p).
  { change 0 with (Qfloor 0). now apply Qfloor_resp_le. }
  assert (Hfq : Qfloor q <= 128).
  { change 128 with (Qfloor 128). now apply Qfloor_resp_le. }
  assert (Hm := Qfloor_resp_le p q Hpq). lia.
Qed.

Hypothesis quotient_ordered : forall i j ln : nat,
  (i <= j <= ln)%nat -> (0 < ln)%nat ->
  exists x y,
    fdiv (inject_Z (Z.of_nat i)) (inject_Z (Z.of_nat ln)) = Ok x
    /\ fdiv (inject_Z (Z.of_nat j)) (inject_Z (Z.of_nat ln)) = Ok y
    /\ (0 <= x)%Q /\ (x <= y)%Q /\ (y <= 1)%Q.

Hypothesis power_ordered : forall x y,
  (0 <= x)%Q -> (x <= y)%Q -> (y <= 1)%Q ->
  exists a b,
    fpow x (Layer.exponent layer) = Ok a
    /\ fpow y (Layer.exponent layer) = Ok b
    /\ (0 <= a)%Q /\ (a <= b)%Q /\ (b <= 1)%Q.

Hypothesis scaling_exact : forall p,
  (0 <= p)%Q -> (p <= 1)%Q ->
  exists q, fmul p 128 = Some q /\ (q == p * 128)%Q.


End VelocityOrder.

Section PlainArithmetic.

Lemma plain_quotient (i j ln : nat) :
  (i <= j <= ln)%nat -> (0 < ln)%nat ->
  exists x y,
    @fdiv Plain.extern (inject_Z (Z.of_nat i)) (inject_Z (Z.of_nat ln)) = Ok x
    /\ @fdiv Plain.extern (inject_Z (Z.of_nat j)) (inject_Z (Z.of_nat ln)) = Ok y
    /\ (0 <= x)%Q /\ (x <= y)%Q /\ (y <= 1)%Q.
Proof.
  intros [Hij Hj] Hln. cbn [fdiv Plain.extern].
  assert (Hpos : (0 < inject_Z (Z.of_nat ln))%Q).
  { unfold Qlt, inject_Z. simpl. lia. }
  assert (Hne : Qeq_bool (inject_Z (Z.of_nat ln)) 0 = false).
  { apply not_true_is_false. intros He%Qeq_bool_eq. rewrite He in Hpos.
    now apply Qlt_irrefl in Hpos. }
  rewrite Hne. eexists _, _. split; [reflexivity|]. split; [reflexivity|].
  split; [|split].
  - apply Qle_shift_div_l; [exact Hpos|]. rewrite Qmult_0_l.
    unfold Qle, inject_Z. simpl. lia.
  - apply Qmult_le_compat_r.
    + rewrite <- Zle_Qle. lia.
    + apply Qinv_le_0_compat. now apply Qlt_le_weak.
  - apply Qle_shift_div_r; [exact Hpos|]. rewrite Qmult_1_l.
    rewrite <- Zle_Qle. lia.
Qed.

Lemma plain_square x y :
  (0 <= x)%Q -> (x <= y)%Q -> (y <= 1)%Q ->
  exists a b,
    @fpow Plain.extern x (inject_Z 2) = Ok a /\ @fpow Plain.extern y (inject_Z 2) = Ok b
    /\ (0 <= a)%Q /\ (a <= b)%Q /\ (b <= 1)%Q.
Proof.
  intros Hx Hxy Hy.
  assert (Hy0 : (0 <= y)%Q) by (eapply Qle_trans; eassumption).
  exists (x * x)%Q, (y * y)%Q.
  assert (Hp : forall z, @fpow Plain.extern z (inject_Z 2) = Ok (z * z)%Q).
  { intros z. cbn [fpow Plain.extern]. unfold Plain.pow.
    cbn [inject_Z Qden Qnum Pos.eqb Z.ltb Z.compare].
    now rewrite andb_false_r. }
  rewrite !Hp. split; [reflexivity|]. split; [reflexivity|].
  split; [now apply Qmult_le_0_compat|]. split.
  - apply Qle_trans with (y * x)%Q; [now apply Qmult_le_compat_r|].
    apply Qle_trans with (x * y)%Q; [|now apply Qmult_le_compat_r].
    apply Qle_lteq. right. apply Qmult_comm.
  - apply Qle_trans with (1 * y)%Q; [now apply Qmult_le_compat_r|].
    apply Qle_trans with y; [|exact Hy].
    apply Qle_lteq. right. apply Qmult_1_l.
Qed.

Lemma plain_scaling p :
  (0 <= p)%Q -> (p <= 1)%Q ->
  exists q, @fmul Plain.extern p 128 = Some q /\ (q == p * 128)%Q.
Proof. intros _ _. exists (p * 128)%Q. split; reflexivity. Qed.

End PlainArithmetic.

(** ** Flags of a layer *)

Section Flags.
Context `{Extern}.


End Flags.

